(** * WordFlipSwedish: the flash-card session of [main.py]

    A shallow embedding of the progress-tracking part of [main.py]: the
    module-level load of the word lists, [next_card], [flip_card],
    [known_word], [all_completed] and [start_over], with the globals they
    mutate, the two CSV files they read and write, and the canvas texts
    they set.  Colours, fonts, widget geometry and image files are left
    out; they never influence the globals.  Two things the program does
    not decide are part of the state as its environment: whether the
    operating system lets the progress file be written, and what pandas
    makes of a file it wrote when it reads it again. *)

From Stdlib Require Import String List Arith Lia Bool Permutation.
From Stdlib Require Import DecimalString.
Import ListNotations.
Local Open Scope string_scope.
Local Open Scope list_scope.

(** ** Data *)

(** One row of a word file as [to_dict(orient='records')] returns it: a
    dict with the keys "Swedish" and "English".  Python compares dicts by
    value, so equality of rows is equality of both fields.  A cell is
    the value [read_csv] gave it, named by its text. *)
Record WordEntry : Type := mkWord { Swedish : string; English : string }.

Definition WordEntry_eqb (a b : WordEntry) : bool :=
  String.eqb (Swedish a) (Swedish b) && String.eqb (English a) (English b).

(** What [pandas.read_csv] can find at a path.
    - [Missing]: no file, [read_csv] raises [FileNotFoundError];
    - [NoColumns]: a file without a header line (zero bytes, or line
      terminators only), [read_csv] raises [EmptyDataError];
    - [Table rows]: a file with the header line [Swedish,English] as it
      is found on the disk, given by the records [rows] that [read_csv]
      returns for it; [rows] may be empty (a header-only file);
    - [Written rows]: the file [to_csv] wrote from the records [rows]:
      the header line and one line per record.  Which records [read_csv]
      returns for it is pandas' matter: it infers a type per column, so
      a cell need not come back as the value that was written. *)
Inductive csv_file : Type :=
| Missing
| NoColumns
| Table (rows : list WordEntry)
| Written (rows : list WordEntry).

Inductive path : Type := WORDS_TO_LEARN | SWEDISH_WORDS_FILE.

Record Disk : Type := mkDisk {
  words_to_learn_csv : csv_file;   (* ./data/words_to_learn.csv *)
  swe_words_csv : csv_file         (* ./data/swe_words.csv *)
}.

Definition file_at (p : path) (d : Disk) : csv_file :=
  match p with
  | WORDS_TO_LEARN => words_to_learn_csv d
  | SWEDISH_WORDS_FILE => swe_words_csv d
  end.

Definition write_file (p : path) (f : csv_file) (d : Disk) : Disk :=
  match p with
  | WORDS_TO_LEARN => mkDisk f (swe_words_csv d)
  | SWEDISH_WORDS_FILE => mkDisk (words_to_learn_csv d) f
  end.

(** The canvas items the functions reconfigure. *)
Inductive image : Type := card_front_img | card_back_img.

Record Canvas : Type := mkCanvas {
  canvas_img : image;
  card_title : string;
  card_word : string;
  card_correct_guesses : string
}.

(** The module's globals, the restart button's placement, the disk, and
    the environment.  [current_word] is [None] for the empty dict [{}]
    the module starts with, and [Some w] once a row was drawn.
    [restart_button] is [true] while the button is placed on the window
    at (280, 410).  [write_refused] says that the operating system
    refuses to write the progress file (a read-only or locked file, a
    full disk): [to_csv] then raises [OSError].  [pandas_reread l] is
    what [read_csv] returns for the file [to_csv] wrote from [l]. *)
Record Globals : Type := mkGlobals {
  to_learn : list WordEntry;
  current_word : option WordEntry;
  total_words_guessed : nat;
  total_correct_guesses : nat;
  canvas : Canvas;
  restart_button : bool;
  disk : Disk;
  write_refused : bool;
  pandas_reread : list WordEntry -> list WordEntry
}.

Definition set_to_learn (l : list WordEntry) (g : Globals) : Globals :=
  mkGlobals l (current_word g) (total_words_guessed g)
            (total_correct_guesses g) (canvas g) (restart_button g) (disk g)
            (write_refused g) (pandas_reread g).

Definition set_current_word (w : option WordEntry) (g : Globals) : Globals :=
  mkGlobals (to_learn g) w (total_words_guessed g)
            (total_correct_guesses g) (canvas g) (restart_button g) (disk g)
            (write_refused g) (pandas_reread g).

Definition set_total_words_guessed (n : nat) (g : Globals) : Globals :=
  mkGlobals (to_learn g) (current_word g) n
            (total_correct_guesses g) (canvas g) (restart_button g) (disk g)
            (write_refused g) (pandas_reread g).

Definition set_total_correct_guesses (n : nat) (g : Globals) : Globals :=
  mkGlobals (to_learn g) (current_word g) (total_words_guessed g)
            n (canvas g) (restart_button g) (disk g)
            (write_refused g) (pandas_reread g).

Definition set_canvas (c : Canvas) (g : Globals) : Globals :=
  mkGlobals (to_learn g) (current_word g) (total_words_guessed g)
            (total_correct_guesses g) c (restart_button g) (disk g)
            (write_refused g) (pandas_reread g).

Definition set_restart_button (b : bool) (g : Globals) : Globals :=
  mkGlobals (to_learn g) (current_word g) (total_words_guessed g)
            (total_correct_guesses g) (canvas g) b (disk g)
            (write_refused g) (pandas_reread g).

Definition set_disk (d : Disk) (g : Globals) : Globals :=
  mkGlobals (to_learn g) (current_word g) (total_words_guessed g)
            (total_correct_guesses g) (canvas g) (restart_button g) d
            (write_refused g) (pandas_reread g).

Definition set_write_refused (b : bool) (g : Globals) : Globals :=
  mkGlobals (to_learn g) (current_word g) (total_words_guessed g)
            (total_correct_guesses g) (canvas g) (restart_button g) (disk g)
            b (pandas_reread g).

Definition set_pandas_reread (f : list WordEntry -> list WordEntry)
    (g : Globals) : Globals :=
  mkGlobals (to_learn g) (current_word g) (total_words_guessed g)
            (total_correct_guesses g) (canvas g) (restart_button g) (disk g)
            (write_refused g) f.

(** ** Exceptions and the monad of the module's functions

    A Python function here reads and assigns globals and may raise.  What
    it assigned before raising stays assigned, so a run returns the final
    globals together with either the exception or the value. *)
Inductive exn : Type :=
| FileNotFoundError | EmptyDataError | IndexError | ValueError | KeyError
| OSError.

Definition M (A : Type) : Type := Globals -> (exn + A) * Globals.

Definition ret {A} (a : A) : M A := fun g => (inr a, g).

Definition raise {A} (e : exn) : M A := fun g => (inl e, g).

Definition bind {A B} (m : M A) (k : A -> M B) : M B :=
  fun g => match m g with
           | (inr a, g') => k a g'
           | (inl e, g') => (inl e, g')
           end.

Definition gets {A} (f : Globals -> A) : M A := fun g => (inr (f g), g).

Definition modify (f : Globals -> Globals) : M unit := fun g => (inr tt, f g).

(** [try: body / except ...: handler e / else: orelse a].  A handler that
    has no clause for [e] re-raises it; what [handler] or [orelse] raise
    is not caught. *)
Definition try_except_else {A B}
    (body : M A) (handler : exn -> M B) (orelse : A -> M B) : M B :=
  fun g => match body g with
           | (inr a, g') => orelse a g'
           | (inl e, g') => handler e g'
           end.

Declare Scope py_scope.
Delimit Scope py_scope with py.
Notation "x <- m ;; k" := (bind m (fun x => k))
  (at level 61, m at next level, right associativity) : py_scope.
Notation "m ;; k" := (bind m (fun _ => k))
  (at level 61, right associativity) : py_scope.
Local Open Scope py_scope.

(** ** Library calls *)

(** [random.choice(seq)]: [IndexError] on an empty sequence, otherwise
    [seq[randbelow(len(seq))]].  The draw [r] is the generator's output;
    [r mod len] is the index it yields below [len]. *)
Definition random_choice (r : nat) (l : list WordEntry) : M WordEntry :=
  match l with
  | [] => raise IndexError
  | _ :: _ =>
      match nth_error l (r mod length l) with
      | Some w => ret w
      | None => raise IndexError
      end
  end.

(** [list.remove(x)]: drops the first item equal to [x]; [None] when no
    item is equal. *)
Fixpoint remove_first (x : WordEntry) (l : list WordEntry)
  : option (list WordEntry) :=
  match l with
  | [] => None
  | y :: l' =>
      if WordEntry_eqb y x then Some l'
      else match remove_first x l' with
           | Some l'' => Some (y :: l'')
           | None => None
           end
  end.

(** [lst.remove(d)] for the dict [d]: the empty dict equals no row. *)
Definition list_remove (d : option WordEntry) (l : list WordEntry)
  : M (list WordEntry) :=
  match d with
  | None => raise ValueError
  | Some x =>
      match remove_first x l with
      | Some l' => ret l'
      | None => raise ValueError
      end
  end.

(** [d["Swedish"]] and [d["English"]]: [KeyError] on the empty dict. *)
Definition getitem (key : WordEntry -> string) (d : option WordEntry)
  : M string :=
  match d with
  | Some w => ret (key w)
  | None => raise KeyError
  end.

(** [pandas.read_csv(p).to_dict(orient='records')]. *)
Definition read_csv (p : path) : M (list WordEntry) :=
  fun g => match file_at p (disk g) with
           | Missing => (inl FileNotFoundError, g)
           | NoColumns => (inl EmptyDataError, g)
           | Table rows => (inr rows, g)
           | Written rows => (inr (pandas_reread g rows), g)
           end.

(** The file [pandas.DataFrame(l).to_csv(p, index=False)] leaves.  A
    frame built from the empty list has no columns, so only the line
    terminator of the (empty) header is written; otherwise the header and
    one line per record. *)
Definition frame_file (l : list WordEntry) : csv_file :=
  match l with
  | [] => NoColumns
  | _ :: _ => Written l
  end.

(** [pandas.DataFrame(l).to_csv(p, index=False)]: [OSError] when the
    file cannot be written, and then nothing is written. *)
Definition to_csv (l : list WordEntry) (p : path) : M unit :=
  refused <- gets write_refused ;;
  if refused then raise OSError
  else modify (fun g => set_disk (write_file p (frame_file l) (disk g)) g).

(** [str(n)] as an f-string prints it. *)
Definition str (n : nat) : string := NilEmpty.string_of_uint (Nat.to_uint n).

(** ** The functions of [main.py] *)

(** Lines 143-154. *)
Definition all_completed : M unit :=
  modify (fun g =>
    set_canvas (mkCanvas (canvas_img (canvas g)) "Congratulations!"
                         "You have learned all words." "") g) ;;
  modify (set_restart_button true).

(** Lines 75-107.  The timer calls only schedule [flip_card]. *)
Definition next_card (r : nat) : M unit :=
  try_except_else
    (l <- gets to_learn ;;
     w <- random_choice r l ;;
     modify (set_current_word (Some w)))
    (fun e => match e with
              | IndexError => all_completed
              | _ => raise e
              end)
    (fun _ =>
       cw <- gets current_word ;;
       word_swedish <- getitem Swedish cw ;;
       modify (fun g =>
         set_canvas (mkCanvas card_front_img "Swedish" word_swedish
           (str (total_correct_guesses g) ++ "/" ++
            str (total_words_guessed g) ++ " correct words")%string) g) ;;
       modify (fun g =>
         set_total_words_guessed (total_words_guessed g + 1) g)).

(** Lines 109-120. *)
Definition flip_card : M unit :=
  cw <- gets current_word ;;
  word_english <- getitem English cw ;;
  modify (fun g =>
    set_canvas (mkCanvas card_back_img "English" word_english
                         (card_correct_guesses (canvas g))) g).

(** Lines 122-141. *)
Definition known_word (r : nat) : M unit :=
  modify (fun g =>
    set_total_correct_guesses (total_correct_guesses g + 1) g) ;;
  try_except_else
    (cw <- gets current_word ;;
     l <- gets to_learn ;;
     l' <- list_remove cw l ;;
     modify (set_to_learn l'))
    (fun e => match e with
              | ValueError => all_completed
              | _ => raise e
              end)
    (fun _ =>
       l <- gets to_learn ;;
       to_csv l WORDS_TO_LEARN ;;
       next_card r).

(** Lines 156-174. *)
Definition start_over (r : nat) : M unit :=
  words_data <- read_csv SWEDISH_WORDS_FILE ;;
  modify (set_to_learn words_data) ;;
  modify (set_restart_button false) ;;
  modify (set_total_words_guessed 0) ;;
  modify (set_total_correct_guesses 0) ;;
  next_card r.

(** Lines 61-73: the module-level load of the pool. *)
Definition load_words : M unit :=
  try_except_else
    (read_csv WORDS_TO_LEARN)
    (fun e => match e with
              | FileNotFoundError =>
                  original_data <- read_csv SWEDISH_WORDS_FILE ;;
                  modify (set_to_learn original_data)
              | EmptyDataError =>
                  original_data <- read_csv SWEDISH_WORDS_FILE ;;
                  modify (set_to_learn original_data)
              | _ => raise e
              end)
    (fun data => modify (set_to_learn data)).

(** Lines 51-57 and 186-196: the globals before the load, with the canvas
    as created and the restart button not placed.  The environment
    starts as the plain one: writes go through, and a file pandas wrote
    reads back as the records it was written from. *)
Definition initial (d : Disk) : Globals :=
  mkGlobals [] None 0 0 (mkCanvas card_front_img "" "" "") false d
            false (fun l => l).

(** The module body up to [window.mainloop()]: load, then the first
    [next_card()] of line 214. *)
Definition main (r : nat) : M unit := load_words ;; next_card r.

(** ** The event loop *)

(** What the window can deliver: the wrong button ([next_card]), the right
    button ([known_word]), the flip timer ([flip_card]) and the restart
    button ([start_over]).  The buttons' draws are the generator's.
    [Protect b] is no callback but the world outside: from then on the
    operating system refuses ([b = true]) or lets through ([b = false])
    the writes of the progress file. *)
Inductive event : Type :=
| Wrong (r : nat)
| Right (r : nat)
| Flip
| Restart (r : nat)
| Protect (b : bool).

Definition command (e : event) : M unit :=
  match e with
  | Wrong r => next_card r
  | Right r => known_word r
  | Flip => flip_card
  | Restart r => start_over r
  | Protect b => modify (set_write_refused b)
  end.

(** Tk reports an exception of a callback and goes on with the globals as
    the callback left them. *)
Definition after (e : event) (g : Globals) : Globals := snd (command e g).

Definition run (es : list event) (g : Globals) : Globals :=
  fold_left (fun g e => after e g) es g.

(** The states a session started on disk [d] can be in. *)
Inductive reachable (d : Disk) : Globals -> Prop :=
| reach_main r g : main r (initial d) = (inr tt, g) -> reachable d g
| reach_after e g : reachable d g -> reachable d (after e g).

(** The completion screen is up: the restart button is placed. *)
Definition exhausted (g : Globals) : bool := restart_button g.

(** ** The states the functions end in *)

(** After [all_completed()]. *)
Definition completed (g : Globals) : Globals :=
  set_restart_button true
    (set_canvas (mkCanvas (canvas_img (canvas g)) "Congratulations!"
                          "You have learned all words." "") g).

(** After the [else] branch of [next_card()] drew [w]. *)
Definition drawn (w : WordEntry) (g : Globals) : Globals :=
  set_total_words_guessed (total_words_guessed g + 1)
    (set_canvas (mkCanvas card_front_img "Swedish" (Swedish w)
       (str (total_correct_guesses g) ++ "/" ++
        str (total_words_guessed g) ++ " correct words")%string)
       (set_current_word (Some w) g)).

(** After the increment and the successful removal and save of
    [known_word()], before its [next_card()]. *)
Definition saved (l' : list WordEntry) (g : Globals) : Globals :=
  set_disk (write_file WORDS_TO_LEARN (frame_file l') (disk g))
    (set_to_learn l'
       (set_total_correct_guesses (total_correct_guesses g + 1) g)).

(** After the increment and the removal of [known_word()] when the save
    raised: nothing was written and [next_card()] was not reached. *)
Definition removed (l' : list WordEntry) (g : Globals) : Globals :=
  set_to_learn l'
    (set_total_correct_guesses (total_correct_guesses g + 1) g).

(** After the resets of [start_over()], before its [next_card()]. *)
Definition reseeded (c : list WordEntry) (g : Globals) : Globals :=
  set_total_correct_guesses 0
    (set_total_words_guessed 0
       (set_restart_button false (set_to_learn c g))).

(** Sample rows. *)
Definition hej : WordEntry := mkWord "hej" "hello".
Definition tack : WordEntry := mkWord "tack" "thanks".

(** Rows are compared by value. *)
Definition WordEntry_eq_dec (a b : WordEntry) : {a = b} + {a <> b}.
Proof. decide equality; apply string_dec. Defined.

(** The empty dict or a row that is not in the pool: what makes
    [to_learn.remove(current_word)] raise [ValueError]. *)
Definition current_absent (g : Globals) : Prop :=
  match current_word g with
  | None => True
  | Some w => ~ In w (to_learn g)
  end.

(** ** The invariant of a session

    While the completion screen is not up, the current word is a row of
    the pool and fewer words were marked known than were shown; once it
    is up, the pool is empty. *)
Definition session_inv (g : Globals) : Prop :=
  if restart_button g then to_learn g = []
  else (exists w, current_word g = Some w /\ In w (to_learn g)) /\
       total_correct_guesses g < total_words_guessed g.

(** ** Sample sessions *)

(** No progress file, one word in the word file. *)
Definition one_word_disk : Disk := mkDisk Missing (Table [hej]).

(** No progress file, two words in the word file. *)
Definition two_word_disk : Disk := mkDisk Missing (Table [hej; tack]).

(** A header-only progress file next to the two-word word file. *)
Definition header_only_disk : Disk := mkDisk (Table []) (Table [hej; tack]).

(** The globals when the window opens. *)
Definition opened (d : Disk) (r : nat) : Globals := snd (main r (initial d)).

(** ** Notions for whole sessions *)

Definition is_restart (e : event) : bool :=
  match e with Restart _ => true | _ => false end.

Definition is_flip (e : event) : bool :=
  match e with Flip => true | _ => false end.

(** The environment starts to refuse the writes of the progress file. *)
Definition refuses (e : event) : bool :=
  match e with Protect true => true | _ => false end.

(** A session in which no write of the progress file is ever refused. *)
Definition undisturbed (es : list event) : bool :=
  forallb (fun e => negb (refuses e)) es.

(** The states of the sessions started on disk [d] in which no write is
    ever refused: every save of [known_word] is written. *)
Inductive reachable_saved (d : Disk) : Globals -> Prop :=
| saved_main r g : main r (initial d) = (inr tt, g) -> reachable_saved d g
| saved_after e g :
    reachable_saved d g -> refuses e = false -> reachable_saved d (after e g).

(** The presses of the wrong and of the right button. *)
Definition is_press (e : event) : bool :=
  match e with Wrong _ | Right _ => true | _ => false end.

Definition count_presses (es : list event) : nat :=
  length (filter is_press es).

(** The records [read_csv] returns for a file in the environment of [g],
    when it returns any. *)
Definition records_of (g : Globals) (f : csv_file)
  : option (list WordEntry) :=
  match f with
  | Table rows => Some rows
  | Written rows => Some (pandas_reread g rows)
  | Missing | NoColumns => None
  end.

(** A fresh start of the program on disk [d], with [f] for what pandas
    returns when it reads a file it wrote. *)
Definition fresh_start (f : list WordEntry -> list WordEntry) (d : Disk)
  : Globals :=
  set_pandas_reread f (initial d).

(** A session in which the restart button is never pressed. *)
Definition no_restart (es : list event) : bool :=
  forallb (fun e => negb (is_restart e)) es.

(** The events of a session without the flips of the timer. *)
Definition drop_flips (es : list event) : list event :=
  filter (fun e => negb (is_flip e)) es.

(** Two states that agree on everything but what the canvas shows. *)
Definition same_progress (g h : Globals) : Prop :=
  to_learn g = to_learn h /\
  current_word g = current_word h /\
  total_words_guessed g = total_words_guessed h /\
  total_correct_guesses g = total_correct_guesses h /\
  restart_button g = restart_button h /\
  disk g = disk h /\
  write_refused g = write_refused h /\
  pandas_reread g = pandas_reread h.

(** The f-string of line 99. *)
Definition counter_text (correct guessed : nat) : string :=
  (str correct ++ "/" ++ str guessed ++ " correct words")%string.

(** What the card shows while the completion screen is not up: one side
    of [current_word], under the counter line written when it was drawn. *)
Definition card_shows_current (g : Globals) : Prop :=
  exists w, current_word g = Some w /\
    card_correct_guesses (canvas g) =
      counter_text (total_correct_guesses g) (total_words_guessed g - 1) /\
    ((canvas_img (canvas g) = card_front_img /\
      card_title (canvas g) = "Swedish" /\ card_word (canvas g) = Swedish w) \/
     (canvas_img (canvas g) = card_back_img /\
      card_title (canvas g) = "English" /\ card_word (canvas g) = English w)).

(** ** The flip timer

    [next_card] cancels the timer whose id is in [flip_timer] and, after
    showing a card, schedules a new flip and keeps its id (lines 83 and
    107); the module body schedules a first one before the first card
    (line 184).  Tk keeps the callbacks that are scheduled and have
    neither fired nor been cancelled; [window.after] returns a fresh id
    and [after_cancel] of an id that is no longer scheduled does nothing.
    The delay itself is not modelled: a scheduled flip may fire at any
    later point of the event loop. *)
Record Window : Type := mkWindow {
  globals : Globals;
  flip_timer : nat;         (* the global [flip_timer]: an id *)
  scheduled : list nat;     (* Tk: ids scheduled and still pending *)
  fresh_id : nat            (* Tk: the next id [window.after] returns *)
}.

Definition set_globals (g : Globals) (w : Window) : Window :=
  mkWindow g (flip_timer w) (scheduled w) (fresh_id w).

Definition W (A : Type) : Type := Window -> (exn + A) * Window.

Definition ret_w {A} (a : A) : W A := fun w => (inr a, w).

Definition raise_w {A} (e : exn) : W A := fun w => (inl e, w).

Definition bind_w {A B} (m : W A) (k : A -> W B) : W B :=
  fun w => match m w with
           | (inr a, w') => k a w'
           | (inl e, w') => (inl e, w')
           end.

Definition try_except_else_w {A B}
    (body : W A) (handler : exn -> W B) (orelse : A -> W B) : W B :=
  fun w => match body w with
           | (inr a, w') => orelse a w'
           | (inl e, w') => handler e w'
           end.

(** A piece of code that only touches the globals. *)
Definition lift {A} (m : M A) : W A :=
  fun w => let (res, g) := m (globals w) in (res, set_globals g w).

Declare Scope tk_scope.
Delimit Scope tk_scope with tk.
Notation "x <- m ;; k" := (bind_w m (fun x => k))
  (at level 61, m at next level, right associativity) : tk_scope.
Notation "m ;; k" := (bind_w m (fun _ => k))
  (at level 61, right associativity) : tk_scope.

(** [window.after(3000, func=flip_card)]. *)
Definition window_after : W nat :=
  fun w => (inr (fresh_id w),
            mkWindow (globals w) (flip_timer w)
                     (fresh_id w :: scheduled w) (S (fresh_id w))).

(** [window.after_cancel(t)]. *)
Definition after_cancel (t : nat) : W unit :=
  fun w => (inr tt,
            mkWindow (globals w) (flip_timer w)
                     (remove Nat.eq_dec t (scheduled w)) (fresh_id w)).

Definition get_flip_timer : W nat := fun w => (inr (flip_timer w), w).

Definition set_flip_timer (t : nat) : W unit :=
  fun w => (inr tt, mkWindow (globals w) t (scheduled w) (fresh_id w)).

(** The [try] body of [next_card] (line 86). *)
Definition draw_card (r : nat) : M unit :=
  l <- gets to_learn ;;
  w <- random_choice r l ;;
  modify (set_current_word (Some w)).

(** The [else] branch of [next_card] up to the counter (lines 91-104). *)
Definition show_front : M unit :=
  cw <- gets current_word ;;
  word_swedish <- getitem Swedish cw ;;
  modify (fun g =>
    set_canvas (mkCanvas card_front_img "Swedish" word_swedish
      (str (total_correct_guesses g) ++ "/" ++
       str (total_words_guessed g) ++ " correct words")%string) g) ;;
  modify (fun g =>
    set_total_words_guessed (total_words_guessed g + 1) g).

(** Lines 75-107 with the timer calls. *)
Definition next_card_w (r : nat) : W unit :=
  (t <- get_flip_timer ;;
   after_cancel t ;;
   try_except_else_w
     (lift (draw_card r))
     (fun e => match e with
               | IndexError => lift all_completed
               | _ => raise_w e
               end)
     (fun _ =>
        lift show_front ;;
        t' <- window_after ;;
        set_flip_timer t'))%tk.

(** The [try] body of [known_word] (line 131). *)
Definition remove_current : M unit :=
  cw <- gets current_word ;;
  l <- gets to_learn ;;
  l' <- list_remove cw l ;;
  modify (set_to_learn l').

(** Lines 137-138. *)
Definition save_progress : M unit :=
  l <- gets to_learn ;;
  to_csv l WORDS_TO_LEARN.

(** Lines 122-141 over the window. *)
Definition known_word_w (r : nat) : W unit :=
  (lift (modify (fun g =>
     set_total_correct_guesses (total_correct_guesses g + 1) g)) ;;
   try_except_else_w
     (lift remove_current)
     (fun e => match e with
               | ValueError => lift all_completed
               | _ => raise_w e
               end)
     (fun _ => lift save_progress ;; next_card_w r))%tk.

(** Lines 163-171. *)
Definition reset_session : M unit :=
  words_data <- read_csv SWEDISH_WORDS_FILE ;;
  modify (set_to_learn words_data) ;;
  modify (set_restart_button false) ;;
  modify (set_total_words_guessed 0) ;;
  modify (set_total_correct_guesses 0).

(** Lines 156-174 over the window. *)
Definition start_over_w (r : nat) : W unit :=
  (lift reset_session ;; next_card_w r)%tk.

(** The module body over the window: the load, the first timer of line
    184, the first card of line 214. *)
Definition main_w (r : nat) : W unit :=
  (lift load_words ;;
   t <- window_after ;;
   set_flip_timer t ;;
   next_card_w r)%tk.

Definition initial_w (d : Disk) : Window := mkWindow (initial d) 0 [] 0.

(** What the window delivers: a button, or the timer with id [t]; and
    the world outside, as in [Protect]. *)
Inductive wevent : Type :=
| WrongB (r : nat)
| RightB (r : nat)
| RestartB (r : nat)
| TimerFires (t : nat)
| ProtectW (b : bool).

(** The event as the session without timers sees it. *)
Definition erase (e : wevent) : event :=
  match e with
  | WrongB r => Wrong r
  | RightB r => Right r
  | RestartB r => Restart r
  | TimerFires _ => Flip
  | ProtectW b => Protect b
  end.

Definition pending (t : nat) (w : Window) : bool :=
  existsb (Nat.eqb t) (scheduled w).

(** Tk takes a timer that fires off its list, then calls [flip_card]. *)
Definition fire (t : nat) : W unit :=
  (after_cancel t ;; lift flip_card)%tk.

(** A timer that is not pending cannot fire. *)
Definition after_w (e : wevent) (w : Window) : Window :=
  match e with
  | WrongB r => snd (next_card_w r w)
  | RightB r => snd (known_word_w r w)
  | RestartB r => snd (start_over_w r w)
  | TimerFires t => if pending t w then snd (fire t w) else w
  | ProtectW b => snd (lift (modify (set_write_refused b)) w)
  end.

Definition run_w (es : list wevent) (w : Window) : Window :=
  fold_left (fun w e => after_w e w) es w.

Inductive reachable_w (d : Disk) : Window -> Prop :=
| reach_main_w r w : main_w r (initial_w d) = (inr tt, w) -> reachable_w d w
| reach_after_w e w : reachable_w d w -> reachable_w d (after_w e w).

(** The states of the window in the sessions in which no write is ever
    refused. *)
Inductive reachable_w_saved (d : Disk) : Window -> Prop :=
| saved_main_w r w :
    main_w r (initial_w d) = (inr tt, w) -> reachable_w_saved d w
| saved_after_w e w :
    reachable_w_saved d w -> refuses (erase e) = false ->
    reachable_w_saved d (after_w e w).

(** The completion texts of [all_completed]. *)
Definition completion_shown (c : Canvas) : Prop :=
  card_title c = "Congratulations!" /\
  card_word c = "You have learned all words." /\
  card_correct_guesses c = "".

(** What holds of the timers in a running window: on the completion screen
    nothing is scheduled; otherwise either the flip of the card on screen
    is the one scheduled callback and the card shows its front, or the
    flip has fired, nothing is scheduled and the card shows its back. *)
Definition timer_inv (w : Window) : Prop :=
  if restart_button (globals w)
  then scheduled w = [] /\ completion_shown (canvas (globals w))
  else (scheduled w = [flip_timer w] /\
        canvas_img (canvas (globals w)) = card_front_img) \/
       (scheduled w = [] /\
        canvas_img (canvas (globals w)) = card_back_img).

(** The timers a [next_card] leaves behind. *)
Definition timers_after_next_card (w : Window) (g' : Globals) : Window :=
  match to_learn (globals w) with
  | [] => mkWindow g' (flip_timer w)
                   (remove Nat.eq_dec (flip_timer w) (scheduled w)) (fresh_id w)
  | _ :: _ => mkWindow g' (fresh_id w)
                       (fresh_id w :: remove Nat.eq_dec (flip_timer w) (scheduled w))
                       (S (fresh_id w))
  end.

(** The right-button presses of a session. *)
Definition is_right (e : event) : bool :=
  match e with Right _ => true | _ => false end.

Definition count_rights (es : list event) : nat :=
  length (filter is_right es).

(** * Proofs *)

(** ** Equality of rows and [list.remove] *)

Lemma WordEntry_eqb_eq (a b : WordEntry) : WordEntry_eqb a b = true <-> a = b.
Proof.
  destruct a as [s1 e1], b as [s2 e2]; unfold WordEntry_eqb; cbn.
  rewrite andb_true_iff, !String.eqb_eq.
  split; [intros [-> ->]; reflexivity | intros H; inversion H; auto].
Qed.

Lemma WordEntry_eqb_refl (a : WordEntry) : WordEntry_eqb a a = true.
Proof. apply WordEntry_eqb_eq; reflexivity. Qed.

Lemma WordEntry_eqb_neq (a b : WordEntry) : WordEntry_eqb a b = false <-> a <> b.
Proof.
  rewrite <- WordEntry_eqb_eq. destruct (WordEntry_eqb a b); split; congruence.
Qed.

Lemma remove_first_Some (x : WordEntry) (l l' : list WordEntry) :
  remove_first x l = Some l' <->
  exists l1 l2, l = l1 ++ x :: l2 /\ ~ In x l1 /\ l' = l1 ++ l2.
Proof.
  revert l'; induction l as [|y l IH]; intros l'; cbn.
  - split; [discriminate|].
    intros (l1 & l2 & H & _); destruct l1; discriminate.
  - destruct (WordEntry_eqb y x) eqn:E.
    + apply WordEntry_eqb_eq in E; subst y. split.
      * intros [= <-]. exists [], l; cbn; auto.
      * intros (l1 & l2 & H & Hn & ->).
        destruct l1 as [|z l1]; cbn in H.
        -- injection H as ->. reflexivity.
        -- injection H as <- _. exfalso; apply Hn; left; reflexivity.
    + apply WordEntry_eqb_neq in E. split.
      * destruct (remove_first x l) as [l''|]; [|discriminate].
        intros [= <-].
        destruct (proj1 (IH l'') eq_refl) as (l1 & l2 & -> & Hn & ->).
        exists (y :: l1), l2; cbn; repeat split; auto.
        intros [->|H]; [congruence | auto].
      * intros (l1 & l2 & H & Hn & ->).
        destruct l1 as [|z l1]; cbn in H; [congruence|].
        injection H as <- ->.
        assert (remove_first x (l1 ++ x :: l2) = Some (l1 ++ l2)) as ->.
        { apply IH. exists l1, l2; repeat split; auto.
          intros Hin; apply Hn; right; exact Hin. }
        reflexivity.
Qed.

Lemma remove_first_None (x : WordEntry) (l : list WordEntry) :
  remove_first x l = None <-> ~ In x l.
Proof.
  induction l as [|y l IH]; cbn; [tauto|].
  destruct (WordEntry_eqb y x) eqn:E.
  - apply WordEntry_eqb_eq in E. split; [discriminate | tauto].
  - apply WordEntry_eqb_neq in E.
    destruct (remove_first x l).
    + split; [discriminate|]. intros H. exfalso.
      assert (~ In x l) as Hn by tauto. apply IH in Hn. discriminate.
    + split; [|reflexivity]. intros _ [H|H]; [congruence|].
      apply (proj1 IH eq_refl H).
Qed.

Lemma remove_first_In (x : WordEntry) (l : list WordEntry) :
  In x l -> exists l', remove_first x l = Some l'.
Proof.
  intros H. destruct (remove_first x l) as [l'|] eqn:R; [eauto|].
  apply remove_first_None in R; contradiction.
Qed.

(** ** [random.choice] *)

Lemma draw_in_range (r : nat) (l : list WordEntry) :
  l <> [] -> exists w, nth_error l (r mod length l) = Some w /\ In w l.
Proof.
  intros H.
  assert (r mod length l < length l) as Hlt.
  { apply Nat.mod_upper_bound. destruct l; cbn; congruence. }
  destruct (nth_error l (r mod length l)) as [w|] eqn:E.
  - exists w; split; [reflexivity | eapply nth_error_In; eauto].
  - apply nth_error_None in E; lia.
Qed.

(** ** Equations of the functions *)

Lemma all_completed_eq (g : Globals) : all_completed g = (inr tt, completed g).
Proof. reflexivity. Qed.

Lemma next_card_empty (r : nat) (g : Globals) :
  to_learn g = [] -> next_card r g = (inr tt, completed g).
Proof.
  intros H. unfold next_card, try_except_else, bind, gets; cbn.
  rewrite H; reflexivity.
Qed.

Lemma next_card_draw (r : nat) (g : Globals) (w : WordEntry) :
  to_learn g <> [] ->
  nth_error (to_learn g) (r mod length (to_learn g)) = Some w ->
  next_card r g = (inr tt, drawn w g).
Proof.
  intros Hne Hw. unfold next_card, try_except_else, bind, gets; cbn.
  destruct (to_learn g) as [|y l] eqn:E; [congruence|].
  unfold random_choice. rewrite Hw. reflexivity.
Qed.

Lemma known_word_absent (r : nat) (g : Globals) :
  match current_word g with
  | None => True
  | Some w => ~ In w (to_learn g)
  end ->
  known_word r g =
  (inr tt, completed (set_total_correct_guesses (total_correct_guesses g + 1) g)).
Proof.
  intros H. unfold known_word, try_except_else, bind, gets, modify; cbn.
  destruct (current_word g) as [w|]; cbn; [|reflexivity].
  apply remove_first_None in H. rewrite H. reflexivity.
Qed.

Lemma known_word_present (r : nat) (g : Globals) (w : WordEntry) l' :
  current_word g = Some w ->
  remove_first w (to_learn g) = Some l' ->
  write_refused g = false ->
  known_word r g = next_card r (saved l' g).
Proof.
  intros Hc Hr Hw.
  unfold known_word, try_except_else, bind, gets, modify, to_csv; cbn.
  rewrite Hc; cbn. rewrite Hr; cbn. rewrite Hw. reflexivity.
Qed.

Lemma known_word_refused (r : nat) (g : Globals) (w : WordEntry) l' :
  current_word g = Some w ->
  remove_first w (to_learn g) = Some l' ->
  write_refused g = true ->
  known_word r g = (inl OSError, removed l' g).
Proof.
  intros Hc Hr Hw.
  unfold known_word, try_except_else, bind, gets, modify, to_csv; cbn.
  rewrite Hc; cbn. rewrite Hr; cbn. rewrite Hw. reflexivity.
Qed.

Lemma start_over_records (r : nat) (g : Globals) (c : list WordEntry) :
  records_of g (swe_words_csv (disk g)) = Some c ->
  start_over r g = next_card r (reseeded c g).
Proof.
  intros H. unfold start_over, bind, read_csv, modify; cbn.
  destruct (swe_words_csv (disk g)); cbn in H; try discriminate;
    injection H as <-; reflexivity.
Qed.

Lemma start_over_table (r : nat) (g : Globals) (c : list WordEntry) :
  swe_words_csv (disk g) = Table c ->
  start_over r g = next_card r (reseeded c g).
Proof.
  intros H. apply start_over_records. rewrite H. reflexivity.
Qed.

Lemma start_over_no_records (r : nat) (g : Globals) :
  records_of g (swe_words_csv (disk g)) = None ->
  exists e, start_over r g = (inl e, g).
Proof.
  intros H. unfold start_over, bind, read_csv; cbn.
  destruct (swe_words_csv (disk g)); cbn in H; try discriminate; eauto.
Qed.

(** What the restart button does, by what the word file gives. *)
Lemma start_over_cases (r : nat) (g : Globals) :
  (exists c, records_of g (swe_words_csv (disk g)) = Some c /\
             start_over r g = next_card r (reseeded c g)) \/
  (records_of g (swe_words_csv (disk g)) = None /\
   exists e, start_over r g = (inl e, g)).
Proof.
  destruct (records_of g (swe_words_csv (disk g))) as [c|] eqn:E.
  - left. exists c. split; [reflexivity | apply start_over_records; exact E].
  - right. split; [reflexivity | apply start_over_no_records; exact E].
Qed.

Lemma flip_card_eq (g : Globals) :
  flip_card g =
  match current_word g with
  | Some w => (inr tt, set_canvas (mkCanvas card_back_img "English" (English w)
                                   (card_correct_guesses (canvas g))) g)
  | None => (inl KeyError, g)
  end.
Proof.
  unfold flip_card, bind, gets; cbn. destruct (current_word g); reflexivity.
Qed.

Lemma next_card_cases (r : nat) (g : Globals) :
  (to_learn g = [] /\ next_card r g = (inr tt, completed g)) \/
  (exists w, to_learn g <> [] /\
             nth_error (to_learn g) (r mod length (to_learn g)) = Some w /\
             In w (to_learn g) /\
             next_card r g = (inr tt, drawn w g)).
Proof.
  destruct (to_learn g) as [|y l] eqn:E.
  - left; split; [reflexivity | apply next_card_empty; exact E].
  - right. destruct (draw_in_range r (to_learn g)) as (w & Hw & Hin).
    { rewrite E; discriminate. }
    exists w. rewrite <- E. repeat split; auto.
    + rewrite E; discriminate.
    + apply next_card_draw; auto. rewrite E; discriminate.
Qed.

Lemma known_word_cases (r : nat) (g : Globals) :
  (match current_word g with
   | None => True
   | Some w => ~ In w (to_learn g)
   end /\
   known_word r g =
   (inr tt, completed (set_total_correct_guesses (total_correct_guesses g + 1) g)))
  \/
  (exists w l', current_word g = Some w /\ In w (to_learn g) /\
                remove_first w (to_learn g) = Some l' /\
                write_refused g = false /\
                known_word r g = next_card r (saved l' g))
  \/
  (exists w l', current_word g = Some w /\ In w (to_learn g) /\
                remove_first w (to_learn g) = Some l' /\
                write_refused g = true /\
                known_word r g = (inl OSError, removed l' g)).
Proof.
  destruct (current_word g) as [w|] eqn:Hc.
  - destruct (remove_first w (to_learn g)) as [l'|] eqn:R.
    + right.
      assert (In w (to_learn g)) as Hin.
      { apply remove_first_Some in R. destruct R as (l1 & l2 & -> & _).
        apply in_or_app; right; left; reflexivity. }
      destruct (write_refused g) eqn:Hw.
      * right. exists w, l'. repeat split; auto.
        eapply known_word_refused; eauto.
      * left. exists w, l'. repeat split; auto.
        eapply known_word_present; eauto.
    + left. apply remove_first_None in R. split; [exact R|].
      apply known_word_absent. rewrite Hc; exact R.
  - left. split; [exact I|]. apply known_word_absent. rewrite Hc; exact I.
Qed.

Lemma load_words_eq (d : Disk) :
  load_words (initial d) =
  match words_to_learn_csv d with
  | Table rows | Written rows => (inr tt, set_to_learn rows (initial d))
  | Missing | NoColumns =>
      match swe_words_csv d with
      | Table c | Written c => (inr tt, set_to_learn c (initial d))
      | Missing => (inl FileNotFoundError, initial d)
      | NoColumns => (inl EmptyDataError, initial d)
      end
  end.
Proof.
  unfold load_words, try_except_else, bind, read_csv, modify; cbn.
  destruct (words_to_learn_csv d); cbn;
    try destruct (swe_words_csv d); reflexivity.
Qed.

(** The load of a fresh start, pandas reading its own files as [f]. *)
Lemma load_words_fresh (f : list WordEntry -> list WordEntry) (d : Disk) :
  load_words (fresh_start f d) =
  match records_of (fresh_start f d) (words_to_learn_csv d) with
  | Some rows => (inr tt, set_to_learn rows (fresh_start f d))
  | None =>
      match swe_words_csv d with
      | Table c => (inr tt, set_to_learn c (fresh_start f d))
      | Written c => (inr tt, set_to_learn (f c) (fresh_start f d))
      | Missing => (inl FileNotFoundError, fresh_start f d)
      | NoColumns => (inl EmptyDataError, fresh_start f d)
      end
  end.
Proof.
  unfold load_words, try_except_else, bind, read_csv, modify; cbn.
  destruct (words_to_learn_csv d); cbn;
    try destruct (swe_words_csv d); reflexivity.
Qed.

(** The start leaves a state in which writes go through. *)
Lemma load_words_shape (d : Disk) (res : exn + unit) (m : Globals) :
  load_words (initial d) = (res, m) ->
  m = set_to_learn (to_learn m) (initial d).
Proof.
  rewrite load_words_eq.
  destruct (words_to_learn_csv d); try destruct (swe_words_csv d);
    intros [= <- <-]; reflexivity.
Qed.

Lemma session_inv_next_card (r : nat) (g : Globals) :
  (restart_button g = true -> to_learn g = []) ->
  (to_learn g <> [] -> total_correct_guesses g <= total_words_guessed g) ->
  session_inv (snd (next_card r g)).
Proof.
  intros Hex Hle. destruct (next_card_cases r g) as [[He ->] | (w & Hne & _ & Hin & ->)].
  - unfold session_inv; cbn. exact He.
  - unfold session_inv; cbn.
    destruct (restart_button g); [exfalso; auto|].
    split; [eauto|]. specialize (Hle Hne). lia.
Qed.

(** What a command does to the environment. *)
Lemma after_environment (e : event) (g : Globals) :
  write_refused (after e g) =
    match e with Protect b => b | _ => write_refused g end /\
  pandas_reread (after e g) = pandas_reread g.
Proof.
  unfold after. destruct e as [r|r| |r|b]; cbn [command].
  - destruct (next_card_cases r g) as [[_ ->] | (w & _ & _ & _ & ->)];
      split; reflexivity.
  - destruct (known_word_cases r g)
      as [[_ ->] | [(w & l' & _ & _ & _ & _ & ->) | (w & l' & _ & _ & _ & _ & ->)]];
      try (split; reflexivity).
    destruct (next_card_cases r (saved l' g)) as [[_ ->] | (w' & _ & _ & _ & ->)];
      split; reflexivity.
  - rewrite flip_card_eq. destruct (current_word g); split; reflexivity.
  - destruct (start_over_cases r g) as [(c & _ & ->) | (_ & x & ->)];
      [|split; reflexivity].
    destruct (next_card_cases r (reseeded c g)) as [[_ ->] | (w' & _ & _ & _ & ->)];
      split; reflexivity.
  - split; reflexivity.
Qed.

Lemma write_refused_after (e : event) (g : Globals) :
  refuses e = false -> write_refused g = false ->
  write_refused (after e g) = false.
Proof.
  intros He Hg. rewrite (proj1 (after_environment e g)).
  destruct e as [r|r| |r|[|]]; cbn in *; congruence.
Qed.

Lemma session_inv_after (e : event) (g : Globals) :
  write_refused g = false -> session_inv g -> session_inv (after e g).
Proof.
  intros Hw Hinv. unfold after. destruct e as [r|r| |r|b]; cbn [command].
  - apply session_inv_next_card.
    + intros Hb. unfold session_inv in Hinv. rewrite Hb in Hinv. exact Hinv.
    + intros Hne. unfold session_inv in Hinv.
      destruct (restart_button g); [congruence | lia].
  - destruct (known_word_cases r g)
      as [[Habs ->] | [(w & l' & Hc & Hin & Hr & _ & ->)
                      | (w & l' & _ & _ & _ & Hw' & _)]]; [| |congruence].
    + unfold session_inv in *; cbn.
      destruct (restart_button g); [exact Hinv|].
      destruct Hinv as [(w & Hc & Hin) _]. rewrite Hc in Habs. contradiction.
    + apply session_inv_next_card; cbn.
      * intros Hb. unfold session_inv in Hinv. rewrite Hb in Hinv.
        rewrite Hinv in Hin. destruct Hin.
      * intros _. unfold session_inv in Hinv.
        destruct (restart_button g); [rewrite Hinv in Hin; destruct Hin | lia].
  - rewrite flip_card_eq. destruct (current_word g) eqn:Hc; cbn; [|exact Hinv].
    unfold session_inv in *; cbn. exact Hinv.
  - destruct (start_over_cases r g) as [(c & _ & ->) | (_ & x & ->)];
      [|exact Hinv].
    apply session_inv_next_card; cbn; [discriminate | lia].
  - exact Hinv.
Qed.

Lemma session_inv_main (d : Disk) (r : nat) (g : Globals) :
  main r (initial d) = (inr tt, g) ->
  session_inv g /\ write_refused g = false.
Proof.
  unfold main, bind.
  destruct (load_words (initial d)) as [[x|[]] m] eqn:Hl; [discriminate|].
  intros E. apply load_words_shape in Hl.
  pose proof (session_inv_next_card r m) as H. rewrite E in H. cbn in H.
  split.
  - apply H; rewrite Hl; cbn; [discriminate | lia].
  - destruct (next_card_cases r m) as [[_ E'] | (w & _ & _ & _ & E')];
      rewrite E' in E; injection E as <-; rewrite Hl; reflexivity.
Qed.

Lemma reachable_saved_inv (d : Disk) (g : Globals) :
  reachable_saved d g -> session_inv g /\ write_refused g = false.
Proof.
  induction 1 as [r g H | e g _ [IH Hw] He].
  - eapply session_inv_main; eauto.
  - split; [apply session_inv_after; assumption|].
    apply write_refused_after; assumption.
Qed.

Lemma reachable_saved_reachable (d : Disk) (g : Globals) :
  reachable_saved d g -> reachable d g.
Proof.
  induction 1 as [r g H | e g _ IH He].
  - apply (reach_main d r). exact H.
  - apply reach_after. exact IH.
Qed.

Lemma reachable_opened_one : reachable one_word_disk (opened one_word_disk 0).
Proof. apply (reach_main _ 0). reflexivity. Qed.

Lemma reachable_opened_two : reachable two_word_disk (opened two_word_disk 0).
Proof. apply (reach_main _ 0). reflexivity. Qed.

Lemma reachable_run (d : Disk) (es : list event) (g : Globals) :
  reachable d g -> reachable d (run es g).
Proof.
  revert g; induction es as [|e es IH]; intros g H; cbn; [exact H|].
  apply IH. apply reach_after. exact H.
Qed.

(** ** The counters *)

(** C1: the counter of known words is meant to stay at or below the
    counter of shown words after every sequence of button presses.
    [known_word] breaks this.  With one word on file and no progress file
    the window opens on that word (one word shown); the right button
    removes it, the pool is empty and the completion screen comes up with
    the counters at 1 and 1; the right button, still on the window, then
    counts again although no word is shown: 2 known words out of 1. *)
Theorem known_word_on_completion_overcounts :
  let g := run [Right 0; Right 0] (opened one_word_disk 0) in
  reachable one_word_disk g /\
  to_learn (run [Right 0] (opened one_word_disk 0)) = [] /\
  total_words_guessed g = 1 /\
  total_correct_guesses g = 2 /\
  ~ total_correct_guesses g <= total_words_guessed g.
Proof.
  cbv zeta. split; [apply reachable_run, reachable_opened_one|].
  repeat split; try reflexivity.
  change (~ 2 <= 1). lia.
Qed.



(** ** The right button: [known_word] *)

(** C2, as the specification states it, fails.  With a header-only
    progress file the window opens on the completion screen with
    [current_word] still the empty dict, and the right button then counts
    a known word: the counter goes from 0 to 1.  Likewise once the one
    word on file was learned: the pool is exhausted, [current_word] is
    still that word, and the right button moves the counter from 1 to
    2. *)
Lemma known_word_unset_counts :
  let g := opened header_only_disk 0 in
  let h := run [Right 0] (opened one_word_disk 0) in
  (reachable header_only_disk g /\
   current_word g = None /\ to_learn g = [] /\ exhausted g = true /\
   fst (known_word 0 g) = inr tt /\
   total_correct_guesses g = 0 /\
   total_correct_guesses (snd (known_word 0 g)) = 1) /\
  (reachable one_word_disk h /\
   current_word h = Some hej /\ to_learn h = [] /\ exhausted h = true /\
   fst (known_word 0 h) = inr tt /\
   total_correct_guesses h = 1 /\
   total_correct_guesses (snd (known_word 0 h)) = 2).
Proof.
  cbv zeta. split.
  - split; [apply (reach_main _ 0); reflexivity|].
    repeat split; reflexivity.
  - split; [apply reachable_run, reachable_opened_one|].
    repeat split; reflexivity.
Qed.

(** C2, amended: when [current_word] is the empty dict, or a row that is
    no longer in the pool (the word last removed, which the code keeps
    once the pool is empty), [known_word] raises nothing; the failed
    removal is handled by putting up the completion screen with its
    restart button, and the pool, the shown counter, [current_word] and
    the progress file stay as they were. *)
Theorem known_word_absent_completes (r : nat) (g : Globals) :
  current_absent g ->
  exists g', known_word r g = (inr tt, g') /\
    to_learn g' = to_learn g /\
    total_words_guessed g' = total_words_guessed g /\
    current_word g' = current_word g /\
    disk g' = disk g /\
    restart_button g' = true /\
    card_title (canvas g') = "Congratulations!" /\
    card_word (canvas g') = "You have learned all words.".
Proof.
  intros H. rewrite (known_word_absent r g H).
  eexists; split; [reflexivity|]. cbn. repeat split; reflexivity.
Qed.

Lemma known_word_absent_completes_on_completion :
  current_absent (run [Right 0] (opened one_word_disk 0)) /\
  exists g', known_word 0 (run [Right 0] (opened one_word_disk 0)) = (inr tt, g') /\
    to_learn g' = [] /\ total_words_guessed g' = 1 /\
    current_word g' = Some hej /\ restart_button g' = true.
Proof.
  assert (current_absent (run [Right 0] (opened one_word_disk 0))) as H.
  { cbn. intros []. }
  split; [exact H|].
  destruct (known_word_absent_completes 0 _ H)
    as (g' & E & Hl & Hg & Hc & _ & Hb & _).
  exists g'. repeat split; auto.
Defined.

(** C10: every call of [known_word] adds exactly one to the known
    counter before it tries the removal, whatever happens afterwards.
    When [current_word] is absent from the pool the call raises nothing
    and ends on the completion screen with the pool and the disk
    untouched.  When it is present the row is removed, and either the
    pool is saved and the call continues as [next_card], or the write is
    refused and the call ends there with [OSError]: in both cases from
    globals in which the counter is already incremented.  The call raises
    in no other case. *)
Theorem known_word_counts_before_removal (r : nat) (g : Globals) :
  (fst (known_word r g) = inr tt \/
   (fst (known_word r g) = inl OSError /\ write_refused g = true /\
    exists w, current_word g = Some w /\ In w (to_learn g))) /\
  (write_refused g = false -> fst (known_word r g) = inr tt) /\
  total_correct_guesses (snd (known_word r g)) = total_correct_guesses g + 1 /\
  (current_absent g ->
     known_word r g =
     (inr tt, completed (set_total_correct_guesses (total_correct_guesses g + 1) g)) /\
     to_learn (snd (known_word r g)) = to_learn g /\
     disk (snd (known_word r g)) = disk g) /\
  (forall w l', current_word g = Some w ->
     remove_first w (to_learn g) = Some l' ->
     (write_refused g = false -> known_word r g = next_card r (saved l' g)) /\
     (write_refused g = true -> known_word r g = (inl OSError, removed l' g)) /\
     total_correct_guesses (saved l' g) = total_correct_guesses g + 1 /\
     total_correct_guesses (removed l' g) = total_correct_guesses g + 1).
Proof.
  split; [|split; [|split; [|split]]].
  - destruct (known_word_cases r g)
      as [[_ ->] | [(w & l' & _ & _ & _ & _ & ->) | (w & l' & Hc & Hin & _ & Hw & ->)]].
    + left; reflexivity.
    + left. destruct (next_card_cases r (saved l' g))
        as [[_ ->] | (w' & _ & _ & _ & ->)]; reflexivity.
    + right. repeat split; eauto.
  - intros Hw. destruct (known_word_cases r g)
      as [[_ ->] | [(w & l' & _ & _ & _ & _ & ->) | (w & l' & _ & _ & _ & Hw' & _)]];
      [reflexivity | | congruence].
    destruct (next_card_cases r (saved l' g)) as [[_ ->] | (w' & _ & _ & _ & ->)];
      reflexivity.
  - destruct (known_word_cases r g)
      as [[_ ->] | [(w & l' & _ & _ & _ & _ & ->) | (w & l' & _ & _ & _ & _ & ->)]];
      try reflexivity.
    destruct (next_card_cases r (saved l' g)) as [[_ ->] | (w' & _ & _ & _ & ->)];
      reflexivity.
  - intros Habs. rewrite (known_word_absent r g Habs). repeat split.
  - intros w l' Hc Hr. repeat split.
    + intros Hw. eapply known_word_present; eauto.
    + intros Hw. eapply known_word_refused; eauto.
Qed.

(** C6: when [current_word] is a row of the pool, [known_word] removes
    the first row equal to it and nothing else: the pool is one row
    shorter, the row taken out equals [current_word], equal rows further
    on stay (the number of rows equal to it drops by exactly one), and the
    number of copies of every other row is unchanged.  The call raises
    nothing when the pool is saved; the removal stands also when the
    write is refused and the call ends with [OSError]. *)
Theorem known_word_removes_one (r : nat) (g : Globals) (w : WordEntry) :
  current_word g = Some w -> In w (to_learn g) ->
  exists res g' l1 l2, known_word r g = (res, g') /\
    res = (if write_refused g then inl OSError else inr tt) /\
    to_learn g = l1 ++ w :: l2 /\ ~ In w l1 /\
    to_learn g' = l1 ++ l2 /\
    length (to_learn g') + 1 = length (to_learn g) /\
    count_occ WordEntry_eq_dec (to_learn g') w + 1 =
      count_occ WordEntry_eq_dec (to_learn g) w /\
    (forall x, x <> w ->
       count_occ WordEntry_eq_dec (to_learn g') x =
       count_occ WordEntry_eq_dec (to_learn g) x) /\
    Permutation (to_learn g) (w :: to_learn g').
Proof.
  intros Hc Hin.
  destruct (remove_first_In w (to_learn g) Hin) as [l' Hr].
  assert (exists res g', known_word r g = (res, g') /\
            res = (if write_refused g then inl OSError else inr tt) /\
            to_learn g' = l') as (res & g' & E & Hres & Hg').
  { destruct (write_refused g) eqn:Hw.
    - rewrite (known_word_refused r g w l' Hc Hr Hw).
      eexists; eexists; repeat split.
    - rewrite (known_word_present r g w l' Hc Hr Hw).
      destruct (next_card_cases r (saved l' g))
        as [[_ ->] | (w' & _ & _ & _ & ->)]; eexists; eexists; repeat split. }
  apply remove_first_Some in Hr. destruct Hr as (l1 & l2 & Hl & Hn & ->).
  exists res, g', l1, l2. rewrite Hg', Hl. repeat split; auto.
  - rewrite !length_app; cbn; lia.
  - rewrite !count_occ_app, count_occ_cons_eq by reflexivity. lia.
  - intros x Hx. rewrite !count_occ_app, count_occ_cons_neq by congruence.
    reflexivity.
  - symmetry. apply Permutation_middle.
Qed.

Lemma known_word_removes_one_of_duplicates :
  let g := set_current_word (Some hej)
             (set_to_learn [tack; hej; hej] (initial one_word_disk)) in
  current_word g = Some hej /\ In hej (to_learn g) /\
  exists g' l1 l2, known_word 0 g = (inr tt, g') /\
    to_learn g = l1 ++ hej :: l2 /\ ~ In hej l1 /\
    to_learn g' = l1 ++ l2 /\
    length (to_learn g') + 1 = 3 /\
    count_occ WordEntry_eq_dec (to_learn g') hej + 1 = 2.
Proof.
  cbv zeta.
  assert (In hej [tack; hej; hej]) as Hin by (cbn; auto).
  split; [reflexivity|]. split; [exact Hin|].
  destruct (known_word_removes_one 0
              (set_current_word (Some hej)
                 (set_to_learn [tack; hej; hej] (initial one_word_disk)))
              hej eq_refl Hin)
    as (res & g' & l1 & l2 & E & Hres & Hl & Hn & Hl' & Hlen & Hcnt & _).
  cbn in Hres. subst res.
  exists g', l1, l2. repeat split; auto.
Defined.

(** ** The wrong button and the first card: [next_card] *)

(** C7: on an empty pool [next_card] raises nothing and puts up the
    completion screen, leaving [current_word] and the shown counter as
    they were; on a non-empty pool it draws the row at the generator's
    index, which is a row of the pool, makes it [current_word], shows its
    Swedish text on the card and adds exactly one to the shown counter.
    Every position of the pool is drawn by exactly the draw equal to it,
    so a generator uniform on the indices picks rows uniformly. *)
Theorem next_card_selects (r : nat) (g : Globals) :
  (to_learn g = [] ->
     exists g', next_card r g = (inr tt, g') /\
       exhausted g' = true /\
       card_title (canvas g') = "Congratulations!" /\
       current_word g' = current_word g /\
       total_words_guessed g' = total_words_guessed g) /\
  (to_learn g <> [] ->
     exists w g', nth_error (to_learn g) (r mod length (to_learn g)) = Some w /\
       In w (to_learn g) /\
       next_card r g = (inr tt, g') /\
       current_word g' = Some w /\
       card_word (canvas g') = Swedish w /\
       total_words_guessed g' = total_words_guessed g + 1 /\
       to_learn g' = to_learn g) /\
  (forall i w, nth_error (to_learn g) i = Some w ->
     i mod length (to_learn g) = i /\
     current_word (snd (next_card i g)) = Some w).
Proof.
  split; [|split].
  - intros He. rewrite (next_card_empty r g He).
    eexists; split; [reflexivity|]. repeat split; reflexivity.
  - intros Hne. destruct (draw_in_range r (to_learn g) Hne) as (w & Hw & Hin).
    exists w. rewrite (next_card_draw r g w Hne Hw).
    eexists; repeat split; auto.
  - intros i w Hi.
    assert (i < length (to_learn g)) as Hlt.
    { apply nth_error_Some. congruence. }
    assert (i mod length (to_learn g) = i) as Hmod by (apply Nat.mod_small; exact Hlt).
    split; [exact Hmod|].
    rewrite (next_card_draw i g w); [reflexivity | | rewrite Hmod; exact Hi].
    intros E; rewrite E in Hlt; cbn in Hlt; lia.
Qed.

(** C9: the wrong button is [next_card] itself.  It raises nothing and
    leaves the pool, the known counter and the disk as they were; the
    shown counter grows by one and [current_word] is replaced by the draw
    when the pool is non-empty, and neither changes when it is empty. *)
Theorem wrong_button_frame (r : nat) (g : Globals) :
  command (Wrong r) g = next_card r g /\
  fst (command (Wrong r) g) = inr tt /\
  to_learn (after (Wrong r) g) = to_learn g /\
  total_correct_guesses (after (Wrong r) g) = total_correct_guesses g /\
  disk (after (Wrong r) g) = disk g /\
  total_words_guessed (after (Wrong r) g) =
    match to_learn g with
    | [] => total_words_guessed g
    | _ :: _ => total_words_guessed g + 1
    end /\
  current_word (after (Wrong r) g) =
    match to_learn g with
    | [] => current_word g
    | _ :: _ => nth_error (to_learn g) (r mod length (to_learn g))
    end.
Proof.
  unfold after; cbn [command]. split; [reflexivity|].
  destruct (next_card_cases r g) as [[He ->] | (w & Hne & Hw & _ & ->)]; cbn.
  - rewrite He. repeat split; reflexivity.
  - rewrite <- Hw. destruct (to_learn g); [congruence|]. repeat split; reflexivity.
Qed.

(** ** The restart button: [start_over] *)

(** C3, as the specification states it, fails: after the one word on file
    was learned, the restart button reseeds the pool, and the
    [next_card()] it ends with has already counted the first card of the
    new round: the counters are (1, 0), not (0, 0), and [current_word] is
    that card. *)
Lemma start_over_counts_first_card :
  let g := run [Right 0] (opened one_word_disk 0) in
  let g' := snd (start_over 0 g) in
  reachable one_word_disk g /\
  fst (start_over 0 g) = inr tt /\
  to_learn g' = [hej] /\
  (total_words_guessed g', total_correct_guesses g') = (1, 0) /\
  (total_words_guessed g', total_correct_guesses g') <> (0, 0) /\
  current_word g' = Some hej.
Proof.
  cbv zeta. split; [apply reachable_run, reachable_opened_one|].
  repeat split; try reflexivity. discriminate.
Qed.

(** C3, amended: when the word file holds the rows [c], [start_over]
    raises nothing; it sets the pool to [c], hides the restart button and
    zeroes both counters, and only then runs [next_card].  When it
    returns the pool is [c], the known counter is 0, the shown counter is
    1 if [c] has a row (the first card of the new round) and 0 otherwise,
    [current_word] is the drawn row (it is never cleared: with no row to
    draw it is what it was), and the disk is untouched, so the reseeded
    pool is not saved. *)
Theorem start_over_reseeds (r : nat) (g : Globals) (c : list WordEntry) :
  swe_words_csv (disk g) = Table c ->
  exists g', start_over r g = (inr tt, g') /\
    start_over r g = next_card r (reseeded c g) /\
    (total_words_guessed (reseeded c g), total_correct_guesses (reseeded c g)) = (0, 0) /\
    to_learn g' = c /\
    length (to_learn g') = length c /\
    total_correct_guesses g' = 0 /\
    total_words_guessed g' = match c with [] => 0 | _ :: _ => 1 end /\
    current_word g' =
      match c with
      | [] => current_word g
      | _ :: _ => nth_error c (r mod length c)
      end /\
    disk g' = disk g.
Proof.
  intros Hd. rewrite (start_over_table r g c Hd).
  destruct (next_card_cases r (reseeded c g)) as [[He ->] | (w & Hne & Hw & _ & ->)];
    cbn in *; eexists; (split; [reflexivity|]); cbn.
  - subst c. repeat split; reflexivity.
  - rewrite <- Hw. destruct c; [congruence|]. repeat split; reflexivity.
Qed.

Lemma start_over_reseeds_after_completion :
  swe_words_csv (disk (run [Right 0] (opened one_word_disk 0))) = Table [hej] /\
  exists g', start_over 0 (run [Right 0] (opened one_word_disk 0)) = (inr tt, g') /\
    to_learn g' = [hej] /\ total_correct_guesses g' = 0 /\
    total_words_guessed g' = 1.
Proof.
  split; [reflexivity|].
  destruct (start_over_reseeds 0 (run [Right 0] (opened one_word_disk 0)) [hej] eq_refl)
    as (g' & E & _ & _ & Hl & _ & Hc & Hg & _).
  exists g'. repeat split; auto.
Defined.

(** ** Loading and saving the pool *)

(** C4, as the specification states it, fails for a progress file that
    holds the header line and no row: [read_csv] returns an empty frame
    without raising, so the pool starts empty, whereas with no progress
    file it starts as the two rows of the word file. *)
Lemma header_only_progress_is_not_reseeded :
  to_learn (snd (load_words (initial two_word_disk))) = [hej; tack] /\
  fst (load_words (initial header_only_disk)) = inr tt /\
  to_learn (snd (load_words (initial header_only_disk))) = [] /\
  to_learn (snd (load_words (initial header_only_disk))) <>
  to_learn (snd (load_words (initial two_word_disk))).
Proof. repeat split; try reflexivity. discriminate. Qed.

(** C4, amended: the load has three outcomes.  With no progress file, and
    with a progress file that has no columns to parse (zero bytes or blank
    lines only), the pool is the rows of the word file.  With a progress
    file that has its header line the pool is exactly that file's rows,
    whatever the word file holds, also when there is no row at all: a
    header-only progress file gives the empty pool. *)
Theorem load_words_outcomes :
  (forall c, load_words (initial (mkDisk Missing (Table c))) =
             (inr tt, set_to_learn c (initial (mkDisk Missing (Table c))))) /\
  (forall c, load_words (initial (mkDisk NoColumns (Table c))) =
             (inr tt, set_to_learn c (initial (mkDisk NoColumns (Table c))))) /\
  (forall rows s, load_words (initial (mkDisk (Table rows) s)) =
                  (inr tt, set_to_learn rows (initial (mkDisk (Table rows) s)))) /\
  (forall c, to_learn (snd (load_words (initial (mkDisk Missing (Table c))))) =
             to_learn (snd (load_words (initial (mkDisk NoColumns (Table c)))))) /\
  (forall s, to_learn (snd (load_words (initial (mkDisk (Table []) s)))) = []).
Proof.
  repeat split; intros; rewrite ?load_words_eq; reflexivity.
Qed.




(** ** The completion screen *)

(** The restart button is placed by [all_completed] and hidden by
    [start_over] only: once up, the completion screen stays up under
    every other event, in every state. *)
Lemma exhausted_stays (e : event) (g : Globals) :
  exhausted g = true -> (forall r, e <> Restart r) ->
  exhausted (after e g) = true.
Proof.
  unfold exhausted. intros Hex Hne.
  unfold after. destruct e as [r|r| |r|b]; cbn [command].
  - destruct (next_card_cases r g) as [[_ ->] | (w & _ & _ & _ & ->)];
      [reflexivity | exact Hex].
  - destruct (known_word_cases r g)
      as [[_ ->] | [(w & l' & _ & _ & _ & _ & ->) | (w & l' & _ & _ & _ & _ & ->)]];
      [reflexivity | | exact Hex].
    destruct (next_card_cases r (saved l' g)) as [[_ ->] | (w' & _ & _ & _ & ->)];
      [reflexivity | exact Hex].
  - rewrite flip_card_eq. destruct (current_word g); exact Hex.
  - exfalso. apply (Hne r). reflexivity.
  - exact Hex.
Qed.

Lemma exhausted_after_not_restart (e : event) (g : Globals) :
  session_inv g -> exhausted g = true -> (forall r, e <> Restart r) ->
  exhausted (after e g) = true /\ to_learn (after e g) = [].
Proof.
  intros Hinv Hex Hne. split; [apply exhausted_stays; assumption|].
  unfold exhausted, session_inv in *. rewrite Hex in Hinv.
  unfold after. destruct e as [r|r| |r|b]; cbn [command].
  - rewrite (next_card_empty r g Hinv). exact Hinv.
  - rewrite (known_word_absent r g).
    + exact Hinv.
    + rewrite Hinv. destruct (current_word g); [intros [] | exact I].
  - rewrite flip_card_eq. destruct (current_word g); exact Hinv.
  - exfalso. apply (Hne r). reflexivity.
  - exact Hinv.
Qed.

(** C8: the completion screen is meant to come up only where [next_card]
    finds the pool empty.  [known_word] breaks this when a save is
    refused.  With hej and tack on file the window opens on hej; the
    progress file becomes read-only; the right button removes hej, the
    save raises [OSError] under no handler and [next_card] is not
    reached, so hej stays the current word of a pool that is now
    [tack] alone; the right button again finds no hej to remove, and the
    handler written for the empty list puts up the completion screen:
    "You have learned all words." over a pool that still holds tack. *)
Theorem completion_screen_after_refused_save :
  let g0 := opened two_word_disk 0 in
  let g1 := run [Protect true; Right 0] g0 in
  let g2 := after (Right 0) g1 in
  reachable two_word_disk g2 /\
  (current_word g0 = Some hej /\ to_learn g0 = [hej; tack]) /\
  command (Right 0) (after (Protect true) g0) = (inl OSError, g1) /\
  (to_learn g1 = [tack] /\ current_word g1 = Some hej /\
   exhausted g1 = false /\ words_to_learn_csv (disk g1) = Missing) /\
  command (Right 0) g1 =
    (inr tt, completed (set_total_correct_guesses
                          (total_correct_guesses g1 + 1) g1)) /\
  exhausted g2 = true /\
  to_learn g2 = [tack] /\
  card_word (canvas g2) = "You have learned all words." /\
  (total_words_guessed g2, total_correct_guesses g2) = (1, 2).
Proof.
  cbv zeta. split.
  - apply reach_after. apply reachable_run. apply reachable_opened_two.
  - repeat split; reflexivity.
Qed.



(** ** A session on two words *)



(** X3: with the words hej and tack on file and no progress file, whatever
    the generator draws: the window opens on one of the two; after the
    right button the progress file is the one written from exactly the
    other one, which is the card now shown; after the right button again
    the pool is empty, the completion screen is up and the progress file
    has no columns. *)
Theorem two_word_session (r0 r1 r2 : nat) :
  let g0 := opened two_word_disk r0 in
  let g1 := after (Right r1) g0 in
  let g2 := after (Right r2) g1 in
  exists w other,
    ((w = hej /\ other = tack) \/ (w = tack /\ other = hej)) /\
    current_word g0 = Some w /\ card_word (canvas g0) = Swedish w /\
    exhausted g0 = false /\
    words_to_learn_csv (disk g1) = Written [other] /\
    to_learn g1 = [other] /\ current_word g1 = Some other /\
    exhausted g1 = false /\
    to_learn g2 = [] /\ exhausted g2 = true /\
    words_to_learn_csv (disk g2) = NoColumns /\
    (total_words_guessed g2, total_correct_guesses g2) = (2, 2).
Proof.
  cbv zeta.
  assert (r1 mod 1 = 0) as H1 by apply Nat.mod_1_r.
  assert (r0 mod 2 = 0 \/ r0 mod 2 = 1) as [H0|H0].
  { pose proof (Nat.mod_upper_bound r0 2). lia. }
  - exists hej, tack.
    assert (opened two_word_disk r0 = opened two_word_disk 0) as ->.
    { unfold opened, main, bind. rewrite load_words_eq. cbn -[Nat.modulo next_card].
      rewrite (next_card_draw r0 _ hej), (next_card_draw 0 _ hej);
        cbn -[Nat.modulo]; try rewrite H0; try reflexivity; discriminate. }
    assert (after (Right r1) (opened two_word_disk 0) =
            after (Right 0) (opened two_word_disk 0)) as ->.
    { unfold after; cbn [command].
      rewrite (known_word_present r1 _ hej [tack]), (known_word_present 0 _ hej [tack])
        by reflexivity.
      rewrite (next_card_draw r1 _ tack), (next_card_draw 0 _ tack);
        cbn -[Nat.modulo]; try rewrite H1; try reflexivity; discriminate. }
    assert (after (Right r2) (after (Right 0) (opened two_word_disk 0)) =
            after (Right 0) (after (Right 0) (opened two_word_disk 0))) as ->.
    { set (g1 := after (Right 0) (opened two_word_disk 0)).
      unfold after; cbn [command].
      rewrite (known_word_present r2 g1 tack []), (known_word_present 0 g1 tack [])
        by reflexivity.
      rewrite !next_card_empty by reflexivity. reflexivity. }
    repeat split; auto.
  - exists tack, hej.
    assert (opened two_word_disk r0 = opened two_word_disk 1) as ->.
    { unfold opened, main, bind. rewrite load_words_eq. cbn -[Nat.modulo next_card].
      rewrite (next_card_draw r0 _ tack), (next_card_draw 1 _ tack);
        cbn -[Nat.modulo]; try rewrite H0; try reflexivity; discriminate. }
    assert (after (Right r1) (opened two_word_disk 1) =
            after (Right 0) (opened two_word_disk 1)) as ->.
    { unfold after; cbn [command].
      rewrite (known_word_present r1 _ tack [hej]), (known_word_present 0 _ tack [hej])
        by reflexivity.
      rewrite (next_card_draw r1 _ hej), (next_card_draw 0 _ hej);
        cbn -[Nat.modulo]; try rewrite H1; try reflexivity; discriminate. }
    assert (after (Right r2) (after (Right 0) (opened two_word_disk 1)) =
            after (Right 0) (after (Right 0) (opened two_word_disk 1))) as ->.
    { set (g1 := after (Right 0) (opened two_word_disk 1)).
      unfold after; cbn [command].
      rewrite (known_word_present r2 g1 hej []), (known_word_present 0 g1 hej [])
        by reflexivity.
      rewrite !next_card_empty by reflexivity. reflexivity. }
    repeat split; auto.
Qed.

(** ** Errors of the callbacks and of the start *)


(** X5: the module body raises exactly when there is no usable progress
    file (missing, or without columns) and the word file cannot be read
    either; the exception is the one of the word file, and nothing was
    assigned.  With a progress file that has its header line the word
    file is not read at all, so the start succeeds whatever its state. *)
Theorem main_errors (r : nat) (d : Disk) :
  match words_to_learn_csv d, swe_words_csv d with
  | Table _, _ | Written _, _ => fst (main r (initial d)) = inr tt
  | _, Table _ | _, Written _ => fst (main r (initial d)) = inr tt
  | _, Missing => main r (initial d) = (inl FileNotFoundError, initial d)
  | _, NoColumns => main r (initial d) = (inl EmptyDataError, initial d)
  end.
Proof.
  unfold main, bind. rewrite load_words_eq.
  assert (forall l, fst (next_card r (set_to_learn l (initial d))) = inr tt) as H.
  { intros l. destruct (next_card_cases r (set_to_learn l (initial d)))
      as [[_ ->] | (w & _ & _ & _ & ->)]; reflexivity. }
  destruct (words_to_learn_csv d); destruct (swe_words_csv d);
    try reflexivity; apply H.
Qed.

(** ** What a session does to the pool and to the disk *)

Lemma run_cons (e : event) (es : list event) (g : Globals) :
  run (e :: es) g = run es (after e g).
Proof. reflexivity. Qed.

Lemma no_restart_cons (e : event) (es : list event) :
  no_restart (e :: es) = true -> is_restart e = false /\ no_restart es = true.
Proof.
  unfold no_restart; cbn. intros H. apply andb_true_iff in H.
  destruct H as [He Hes]. apply negb_true_iff in He. auto.
Qed.

Lemma undisturbed_cons (e : event) (es : list event) :
  undisturbed (e :: es) = true -> refuses e = false /\ undisturbed es = true.
Proof.
  unfold undisturbed; cbn. intros H. apply andb_true_iff in H.
  destruct H as [He Hes]. apply negb_true_iff in He. auto.
Qed.

Lemma after_pool (e : event) (g : Globals) :
  is_restart e = false ->
  to_learn (after e g) = to_learn g \/
  (exists r w l1 l2, e = Right r /\ current_word g = Some w /\
     to_learn g = l1 ++ w :: l2 /\ ~ In w l1 /\
     to_learn (after e g) = l1 ++ l2).
Proof.
  intros He. unfold after. destruct e as [r|r| |r|b]; cbn [command]; try discriminate.
  - left. destruct (next_card_cases r g) as [[_ ->] | (w & _ & _ & _ & ->)]; reflexivity.
  - destruct (known_word_cases r g)
      as [[_ ->] | [(w & l' & Hc & _ & Hr & _ & ->) | (w & l' & Hc & _ & Hr & _ & ->)]];
      [left; reflexivity | |].
    + right. apply remove_first_Some in Hr. destruct Hr as (l1 & l2 & Hl & Hn & ->).
      exists r, w, l1, l2. repeat split; auto.
      destruct (next_card_cases r (saved (l1 ++ l2) g))
        as [[_ ->] | (w' & _ & _ & _ & ->)]; reflexivity.
    + right. apply remove_first_Some in Hr. destruct Hr as (l1 & l2 & Hl & Hn & ->).
      exists r, w, l1, l2. repeat split; auto.
  - left. rewrite flip_card_eq. destruct (current_word g); reflexivity.
  - left. reflexivity.
Qed.

Lemma after_pool_count (e : event) (g : Globals) (x : WordEntry) :
  is_restart e = false ->
  count_occ WordEntry_eq_dec (to_learn (after e g)) x <=
  count_occ WordEntry_eq_dec (to_learn g) x.
Proof.
  intros He. destruct (after_pool e g He)
    as [-> | (r & w & l1 & l2 & _ & _ & -> & _ & ->)]; [lia|].
  rewrite !count_occ_app. cbn. destruct (WordEntry_eq_dec w x); lia.
Qed.

(** X6: as long as the restart button is not pressed the pool never
    grows: after any run of wrong button, right button and flips, every
    row occurs in the pool at most as often as before, so the pool is no
    longer than it was and holds no row it did not hold.  This holds
    also when saves are refused. *)
Theorem pool_only_shrinks (es : list event) (g : Globals) :
  no_restart es = true ->
  (forall x, count_occ WordEntry_eq_dec (to_learn (run es g)) x <=
             count_occ WordEntry_eq_dec (to_learn g) x) /\
  (forall x, In x (to_learn (run es g)) -> In x (to_learn g)) /\
  length (to_learn (run es g)) <= length (to_learn g).
Proof.
  revert g. induction es as [|e es IH]; intros g H.
  - cbn. repeat split; auto.
  - apply no_restart_cons in H. destruct H as [He Hes].
    rewrite run_cons.
    destruct (IH (after e g) Hes) as (Hc & Hi & Hl).
    split; [|split].
    + intros x. specialize (Hc x). pose proof (after_pool_count e g x He). lia.
    + intros x Hx. apply Hi in Hx.
      apply (count_occ_In WordEntry_eq_dec) in Hx.
      apply (count_occ_In WordEntry_eq_dec).
      pose proof (after_pool_count e g x He). lia.
    + destruct (after_pool e g He)
        as [E | (r & w & l1 & l2 & _ & _ & E1 & _ & E2)].
      * rewrite E in Hl. exact Hl.
      * rewrite E2 in Hl. rewrite E1. rewrite length_app in *. cbn. lia.
Qed.

Lemma pool_only_shrinks_two_words :
  no_restart [Wrong 3; Flip; Right 1; Wrong 0] = true /\
  length (to_learn (run [Wrong 3; Flip; Right 1; Wrong 0] (opened two_word_disk 0))) <=
  length (to_learn (opened two_word_disk 0)).
Proof.
  split; [reflexivity|].
  apply (pool_only_shrinks [Wrong 3; Flip; Right 1; Wrong 0] (opened two_word_disk 0)).
  reflexivity.
Defined.

(** What an event does to the disk. *)
Lemma after_disk (e : event) (g : Globals) :
  disk (after e g) = disk g \/
  exists r w l', e = Right r /\ current_word g = Some w /\ In w (to_learn g) /\
    remove_first w (to_learn g) = Some l' /\ write_refused g = false /\
    to_learn (after e g) = l' /\
    disk (after e g) = mkDisk (frame_file l') (swe_words_csv (disk g)).
Proof.
  unfold after. destruct e as [r|r| |r|b]; cbn [command].
  - destruct (next_card_cases r g) as [[_ ->] | (w & _ & _ & _ & ->)]; cbn; auto.
  - destruct (known_word_cases r g)
      as [[_ ->] | [(w & l' & Hc & Hin & Hr & Hw & ->) | (w & l' & _ & _ & _ & _ & ->)]];
      [cbn; auto | | cbn; auto].
    right. exists r, w, l'.
    destruct (next_card_cases r (saved l' g)) as [[_ ->] | (w' & _ & _ & _ & ->)];
      repeat split; auto.
  - rewrite flip_card_eq. destruct (current_word g); cbn; auto.
  - destruct (start_over_cases r g) as [(c & _ & ->) | (_ & x & ->)];
      [|cbn; auto].
    destruct (next_card_cases r (reseeded c g)) as [[_ ->] | (w' & _ & _ & _ & ->)];
      cbn; auto.
  - cbn; auto.
Qed.

(** X7: no callback ever writes the word file, and the progress file is
    written by one thing only: the right button pressed while
    [current_word] is a row of the pool, when the write is not refused.
    The wrong button, the flip, the restart button, a right button that
    finds no row to remove and one whose write is refused leave the disk
    exactly as it was. *)
Theorem disk_written_only_by_known_word (e : event) (g : Globals) :
  swe_words_csv (disk (after e g)) = swe_words_csv (disk g) /\
  (disk (after e g) = disk g \/
   exists r w l', e = Right r /\ current_word g = Some w /\ In w (to_learn g) /\
     remove_first w (to_learn g) = Some l' /\
     write_refused g = false /\
     disk (after e g) = mkDisk (frame_file l') (swe_words_csv (disk g))).
Proof.
  destruct (after_disk e g) as [E | (r & w & l' & He & Hc & Hin & Hr & Hw & _ & E)].
  - rewrite E. auto.
  - rewrite E. split; [reflexivity|]. right. exists r, w, l'.
    repeat split; assumption.
Qed.

(** One event of a session without restart and without refused write
    either leaves disk and pool alone or leaves the progress file written
    from the pool. *)
Lemma after_in_step (e : event) (g : Globals) :
  is_restart e = false -> write_refused g = false ->
  (disk (after e g) = disk g /\ to_learn (after e g) = to_learn g) \/
  (words_to_learn_csv (disk (after e g)) = frame_file (to_learn (after e g)) /\
   swe_words_csv (disk (after e g)) = swe_words_csv (disk g)).
Proof.
  intros He Hw. unfold after.
  destruct e as [r|r| |r|b]; cbn [command]; try discriminate.
  - left. destruct (next_card_cases r g) as [[_ ->] | (w & _ & _ & _ & ->)];
      split; reflexivity.
  - destruct (known_word_cases r g)
      as [[_ ->] | [(w & l' & _ & _ & _ & _ & ->) | (w & l' & _ & _ & _ & Hw' & _)]];
      [left; split; reflexivity | | congruence].
    right. destruct (next_card_cases r (saved l' g))
      as [[_ ->] | (w' & _ & _ & _ & ->)]; split; reflexivity.
  - left. rewrite flip_card_eq. destruct (current_word g); split; reflexivity.
  - left. split; reflexivity.
Qed.

(** The progress file of a session without restart and without refused
    write is in step with its pool. *)
Lemma run_in_step (es : list event) (g : Globals) :
  no_restart es = true -> undisturbed es = true -> write_refused g = false ->
  (disk (run es g) = disk g /\ to_learn (run es g) = to_learn g) \/
  (words_to_learn_csv (disk (run es g)) = frame_file (to_learn (run es g)) /\
   swe_words_csv (disk (run es g)) = swe_words_csv (disk g)).
Proof.
  revert g. induction es as [|e es IH]; intros g Hn Hu Hw.
  - left. split; reflexivity.
  - apply no_restart_cons in Hn. destruct Hn as [He Hn].
    apply undisturbed_cons in Hu. destruct Hu as [Hr Hu].
    rewrite run_cons.
    pose proof (write_refused_after e g Hr Hw) as Hw'.
    destruct (IH (after e g) Hn Hu Hw') as [[Hd Hp] | [Hf Hs]];
      destruct (after_in_step e g He Hw) as [[Hd' Hp'] | [Hf' Hs']].
    + left. split; congruence.
    + right. rewrite Hd, Hp. split; assumption.
    + right. split; [exact Hf | congruence].
    + right. split; [exact Hf | congruence].
Qed.



(** ** The flip and the card *)

Lemma same_progress_refl (g : Globals) : same_progress g g.
Proof. repeat split. Qed.

Lemma same_progress_trans (g h k : Globals) :
  same_progress g h -> same_progress h k -> same_progress g k.
Proof.
  unfold same_progress. intros (?&?&?&?&?&?&?&?) (?&?&?&?&?&?&?&?).
  repeat split; congruence.
Qed.

Lemma same_progress_canvas (g h : Globals) :
  same_progress g h -> g = set_canvas (canvas g) h.
Proof.
  destruct g, h; unfold same_progress; cbn.
  intros (-> & -> & -> & -> & -> & -> & -> & ->). reflexivity.
Qed.

Lemma next_card_canvas (r : nat) (c : Canvas) (g : Globals) :
  same_progress (snd (next_card r (set_canvas c g))) (snd (next_card r g)).
Proof.
  destruct (next_card_cases r g) as [[He ->] | (w & Hne & Hw & _ & ->)].
  - rewrite (next_card_empty r (set_canvas c g) He). repeat split.
  - rewrite (next_card_draw r (set_canvas c g) w Hne Hw). repeat split.
Qed.

Lemma after_canvas (e : event) (c : Canvas) (g : Globals) :
  same_progress (after e (set_canvas c g)) (after e g).
Proof.
  unfold after. destruct e as [r|r| |r|b]; cbn [command].
  - apply next_card_canvas.
  - destruct (known_word_cases r g)
      as [[Habs ->] | [(w & l' & Hc & _ & Hr & Hw & ->) | (w & l' & Hc & _ & Hr & Hw & ->)]].
    + rewrite (known_word_absent r (set_canvas c g) Habs). repeat split.
    + rewrite (known_word_present r (set_canvas c g) w l' Hc Hr Hw).
      apply (next_card_canvas r c (saved l' g)).
    + rewrite (known_word_refused r (set_canvas c g) w l' Hc Hr Hw). repeat split.
  - rewrite !flip_card_eq. cbn. destruct (current_word g); repeat split.
  - destruct (start_over_cases r g) as [(c' & Hd & ->) | (Hd & x & ->)].
    + rewrite (start_over_records r (set_canvas c g) c' Hd).
      apply (next_card_canvas r c (reseeded c' g)).
    + destruct (start_over_no_records r (set_canvas c g) Hd) as [y ->].
      repeat split.
  - repeat split.
Qed.

Lemma after_same_progress (e : event) (g h : Globals) :
  same_progress g h -> same_progress (after e g) (after e h).
Proof.
  intros H. rewrite (same_progress_canvas g h H). apply after_canvas.
Qed.

Lemma flip_same_progress (g : Globals) : same_progress (after Flip g) g.
Proof.
  unfold after; cbn [command]. rewrite flip_card_eq.
  destruct (current_word g); repeat split.
Qed.

Lemma run_same_progress (es : list event) (g h : Globals) :
  same_progress g h -> same_progress (run es g) (run (drop_flips es) h).
Proof.
  revert g h. induction es as [|e es IH]; intros g h H; [exact H|].
  rewrite run_cons. destruct e as [r|r| |r|b]; cbn [drop_flips filter is_flip negb];
    try (rewrite run_cons; apply IH, after_same_progress, H).
  apply IH. eapply same_progress_trans; [apply flip_same_progress | exact H].
Qed.

(** X9: the flips have no part in the progress.  Whatever the buttons do
    to the pool, to [current_word], to the two counters, to the restart
    button and to the disk, they do the same when every flip is taken out
    of the session: a flip, whenever it comes and also when it raises,
    only ever changes what the canvas shows.  This holds in every
    session, also when saves are refused. *)
Theorem flips_do_not_affect_progress (es : list event) (g : Globals) :
  same_progress (run es g) (run (drop_flips es) g).
Proof. apply run_same_progress, same_progress_refl. Qed.

Lemma card_shows_current_drawn (w : WordEntry) (g : Globals) :
  card_shows_current (drawn w g).
Proof.
  exists w. cbn. split; [reflexivity|]. split.
  - unfold counter_text. rewrite Nat.add_sub. reflexivity.
  - left. auto.
Qed.

Lemma card_shows_current_next_card (r : nat) (g : Globals) :
  restart_button (snd (next_card r g)) = false ->
  card_shows_current (snd (next_card r g)).
Proof.
  destruct (next_card_cases r g) as [[_ ->] | (w & _ & _ & _ & ->)]; cbn.
  - discriminate.
  - intros _. apply card_shows_current_drawn.
Qed.

Lemma card_shows_current_after (e : event) (g : Globals) :
  write_refused g = false ->
  (restart_button g = false -> card_shows_current g) ->
  restart_button (after e g) = false -> card_shows_current (after e g).
Proof.
  intros Hw Hg. unfold after. destruct e as [r|r| |r|b]; cbn [command].
  - apply card_shows_current_next_card.
  - destruct (known_word_cases r g)
      as [[_ ->] | [(w & l' & _ & _ & _ & _ & ->) | (w & l' & _ & _ & _ & Hw' & _)]];
      [| |congruence].
    + cbn. discriminate.
    + apply card_shows_current_next_card.
  - rewrite flip_card_eq. destruct (current_word g) as [w|] eqn:Hc; cbn; [|exact Hg].
    intros Hb. destruct (Hg Hb) as (w' & Hc' & Ht & _).
    exists w. cbn. split; [exact Hc|]. split; [exact Ht|]. right. auto.
  - destruct (start_over_cases r g) as [(c & _ & ->) | (_ & x & ->)];
      [|exact Hg].
    apply card_shows_current_next_card.
  - exact Hg.
Qed.

Lemma reachable_card_shows_current (d : Disk) (g : Globals) :
  reachable_saved d g -> restart_button g = false -> card_shows_current g.
Proof.
  intros H. induction H as [r g H | e g Hr IH He].
  - unfold main, bind in H.
    destruct (load_words (initial d)) as [[x|[]] m]; [discriminate|].
    intros Hb. pose proof (card_shows_current_next_card r m) as Hn.
    rewrite H in Hn. apply Hn. exact Hb.
  - apply card_shows_current_after; [|exact IH].
    apply (reachable_saved_inv d g Hr).
Qed.



(** ** The window with its flip timer *)

Lemma next_card_parts (r : nat) :
  next_card r =
  try_except_else (draw_card r)
    (fun e => match e with IndexError => all_completed | _ => raise e end)
    (fun _ => show_front).
Proof. reflexivity. Qed.

Lemma known_word_parts (r : nat) :
  known_word r =
  (modify (fun g => set_total_correct_guesses (total_correct_guesses g + 1) g) ;;
   try_except_else remove_current
     (fun e => match e with ValueError => all_completed | _ => raise e end)
     (fun _ => save_progress ;; next_card r))%py.
Proof. reflexivity. Qed.

Lemma start_over_parts (r : nat) (g : Globals) :
  start_over r g = (reset_session ;; next_card r)%py g.
Proof.
  unfold start_over, reset_session, bind, read_csv, modify.
  destruct (file_at SWEDISH_WORDS_FILE (disk g)); reflexivity.
Qed.

Lemma set_globals_same (w : Window) : set_globals (globals w) w = w.
Proof. destruct w; reflexivity. Qed.

Lemma remove_single (t : nat) : remove Nat.eq_dec t [t] = [].
Proof. cbn. destruct (Nat.eq_dec t t); [reflexivity | congruence]. Qed.

Lemma pending_In (t : nat) (w : Window) :
  pending t w = true <-> In t (scheduled w).
Proof.
  unfold pending. rewrite existsb_exists. split.
  - intros (x & Hx & E). apply Nat.eqb_eq in E. subst x. exact Hx.
  - intros H. exists t. split; [exact H | apply Nat.eqb_refl].
Qed.

Lemma next_card_w_eq (r : nat) (w : Window) :
  next_card_w r w =
  (inr tt, timers_after_next_card w (snd (next_card r (globals w)))).
Proof.
  unfold timers_after_next_card.
  destruct (next_card_cases r (globals w)) as [[He ->] | (x & Hne & Hx & _ & ->)].
  - unfold next_card_w, bind_w, get_flip_timer, after_cancel, try_except_else_w,
      lift, draw_card, bind, gets; cbn.
    rewrite He. reflexivity.
  - unfold next_card_w, bind_w, get_flip_timer, after_cancel, try_except_else_w,
      lift, draw_card, bind, gets; cbn.
    destruct (to_learn (globals w)) as [|y l] eqn:E; [congruence|].
    unfold random_choice. rewrite Hx. reflexivity.
Qed.

Lemma known_word_w_absent (r : nat) (w : Window) :
  current_absent (globals w) ->
  known_word_w r w = (inr tt, set_globals (snd (known_word r (globals w))) w).
Proof.
  intros H. rewrite (known_word_absent r (globals w) H).
  unfold current_absent in H.
  unfold known_word_w, bind_w, try_except_else_w, lift, remove_current,
    bind, gets, modify; cbn.
  destruct (current_word (globals w)) as [x|]; cbn; [|reflexivity].
  apply remove_first_None in H. rewrite H. reflexivity.
Qed.

Lemma known_word_w_present (r : nat) (w : Window) (x : WordEntry) l' :
  current_word (globals w) = Some x ->
  remove_first x (to_learn (globals w)) = Some l' ->
  write_refused (globals w) = false ->
  known_word_w r w = next_card_w r (set_globals (saved l' (globals w)) w).
Proof.
  intros Hc Hr Hw.
  unfold known_word_w, bind_w, try_except_else_w, lift, remove_current,
    save_progress, bind, gets, modify, to_csv; cbn.
  rewrite Hc; cbn. rewrite Hr; cbn. rewrite Hw. reflexivity.
Qed.

Lemma known_word_w_refused (r : nat) (w : Window) (x : WordEntry) l' :
  current_word (globals w) = Some x ->
  remove_first x (to_learn (globals w)) = Some l' ->
  write_refused (globals w) = true ->
  known_word_w r w = (inl OSError, set_globals (removed l' (globals w)) w).
Proof.
  intros Hc Hr Hw.
  unfold known_word_w, bind_w, try_except_else_w, lift, remove_current,
    save_progress, bind, gets, modify, to_csv; cbn.
  rewrite Hc; cbn. rewrite Hr; cbn. rewrite Hw. reflexivity.
Qed.

Lemma start_over_w_records (r : nat) (w : Window) (c : list WordEntry) :
  records_of (globals w) (swe_words_csv (disk (globals w))) = Some c ->
  start_over_w r w = next_card_w r (set_globals (reseeded c (globals w)) w).
Proof.
  intros H. unfold start_over_w, bind_w, lift, reset_session, bind, read_csv, modify; cbn.
  destruct (swe_words_csv (disk (globals w))); cbn in H; try discriminate;
    injection H as <-; reflexivity.
Qed.

Lemma start_over_w_no_records (r : nat) (w : Window) :
  records_of (globals w) (swe_words_csv (disk (globals w))) = None ->
  exists e, start_over_w r w = (inl e, w).
Proof.
  intros H. unfold start_over_w, bind_w, lift, reset_session, bind, read_csv; cbn.
  destruct (swe_words_csv (disk (globals w))); cbn in H; try discriminate;
    rewrite set_globals_same; eauto.
Qed.

Lemma fire_eq (t : nat) (w : Window) :
  fire t w =
  (fst (flip_card (globals w)),
   mkWindow (snd (flip_card (globals w))) (flip_timer w)
            (remove Nat.eq_dec t (scheduled w)) (fresh_id w)).
Proof.
  unfold fire, bind_w, after_cancel, lift; cbn -[flip_card].
  destruct (flip_card (globals w)) as [[e|[]] g']; reflexivity.
Qed.

Lemma after_w_globals (e : wevent) (w : Window) :
  globals (after_w e w) =
  match e with
  | TimerFires t => if pending t w then after Flip (globals w) else globals w
  | _ => after (erase e) (globals w)
  end.
Proof.
  unfold after. destruct e as [r|r|r|t|b]; cbn [after_w erase command].
  - rewrite next_card_w_eq. unfold timers_after_next_card.
    destruct (to_learn (globals w)); reflexivity.
  - destruct (known_word_cases r (globals w))
      as [[Habs _] | [(x & l' & Hc & _ & Hr & Hw & E)
                     | (x & l' & Hc & _ & Hr & Hw & E)]].
    + rewrite (known_word_w_absent r w Habs). reflexivity.
    + rewrite (known_word_w_present r w x l' Hc Hr Hw), E, next_card_w_eq.
      unfold timers_after_next_card. cbn. destruct l'; reflexivity.
    + rewrite (known_word_w_refused r w x l' Hc Hr Hw), E. reflexivity.
  - destruct (start_over_cases r (globals w)) as [(c & Hd & ->) | (Hd & y & ->)].
    + rewrite (start_over_w_records r w c Hd), next_card_w_eq.
      unfold timers_after_next_card. cbn. destruct c; reflexivity.
    + destruct (start_over_w_no_records r w Hd) as [x ->]. reflexivity.
  - destruct (pending t w); [|reflexivity]. rewrite fire_eq. reflexivity.
  - reflexivity.
Qed.

Lemma main_w_eq (r : nat) (d : Disk) :
  fst (main_w r (initial_w d)) = fst (main r (initial d)) /\
  globals (snd (main_w r (initial_w d))) = snd (main r (initial d)).
Proof.
  unfold main_w, main, bind_w, bind, lift. cbn [globals initial_w].
  destruct (load_words (initial d)) as [[x|[]] m]; [split; reflexivity|].
  unfold window_after, set_flip_timer. cbn -[next_card_w next_card].
  rewrite next_card_w_eq. cbn [fst snd globals].
  unfold timers_after_next_card; cbn [globals].
  assert (fst (next_card r m) = inr tt) as ->.
  { destruct (next_card_cases r m) as [[_ ->] | (y & _ & _ & _ & ->)]; reflexivity. }
  destruct (to_learn m); split; reflexivity.
Qed.

Lemma main_w_main (r : nat) (d : Disk) (w : Window) :
  main_w r (initial_w d) = (inr tt, w) ->
  main r (initial d) = (inr tt, globals w).
Proof.
  intros H. destruct (main_w_eq r d) as [Hf Hg].
  rewrite H in Hf, Hg. cbn in Hf, Hg.
  destruct (main r (initial d)) as [res g]. cbn in *. subst. reflexivity.
Qed.

Lemma reachable_w_globals (d : Disk) (w : Window) :
  reachable_w d w -> reachable d (globals w).
Proof.
  induction 1 as [r w H | e w Hr IH].
  - apply (reach_main d r). apply main_w_main. exact H.
  - rewrite after_w_globals.
    destruct e as [r|r|r|t|b]; try (apply reach_after; exact IH).
    destruct (pending t w); [apply reach_after|]; exact IH.
Qed.

Lemma reachable_w_saved_globals (d : Disk) (w : Window) :
  reachable_w_saved d w -> reachable_saved d (globals w).
Proof.
  induction 1 as [r w H | e w Hr IH He].
  - apply (saved_main d r). apply main_w_main. exact H.
  - rewrite after_w_globals.
    destruct e as [r|r|r|t|b]; try (apply saved_after; [exact IH | exact He]).
    destruct (pending t w); [apply saved_after; [exact IH | exact He] | exact IH].
Qed.

Lemma reachable_w_saved_reachable (d : Disk) (w : Window) :
  reachable_w_saved d w -> reachable_w d w.
Proof.
  induction 1 as [r w H | e w _ IH He].
  - apply (reach_main_w d r). exact H.
  - apply reach_after_w. exact IH.
Qed.

Lemma timer_inv_scheduled (w : Window) :
  timer_inv w -> scheduled w = [] \/ scheduled w = [flip_timer w].
Proof.
  unfold timer_inv. destruct (restart_button (globals w)).
  - intros [H _]; auto.
  - intros [[H _] | [H _]]; auto.
Qed.

Lemma cancel_scheduled (w : Window) :
  scheduled w = [] \/ scheduled w = [flip_timer w] ->
  remove Nat.eq_dec (flip_timer w) (scheduled w) = [].
Proof. intros [-> | ->]; [reflexivity | apply remove_single]. Qed.

Lemma timer_inv_next_card_w (r : nat) (w : Window) :
  (restart_button (globals w) = true -> to_learn (globals w) = []) ->
  scheduled w = [] \/ scheduled w = [flip_timer w] ->
  timer_inv (snd (next_card_w r w)).
Proof.
  intros Hex Hs. rewrite next_card_w_eq. cbn [snd].
  unfold timers_after_next_card. rewrite (cancel_scheduled w Hs).
  destruct (next_card_cases r (globals w)) as [[He ->] | (x & Hne & _ & _ & ->)].
  - rewrite He. unfold timer_inv, completion_shown; cbn. auto.
  - destruct (to_learn (globals w)) as [|y l] eqn:E; [congruence|].
    unfold timer_inv; cbn.
    destruct (restart_button (globals w)); [specialize (Hex eq_refl); discriminate|].
    left. auto.
Qed.

Lemma timer_inv_after (e : wevent) (w : Window) :
  write_refused (globals w) = false ->
  session_inv (globals w) -> timer_inv w -> timer_inv (after_w e w).
Proof.
  intros Hwr Hinv Ht. pose proof (timer_inv_scheduled w Ht) as Hs.
  assert (restart_button (globals w) = true -> to_learn (globals w) = []) as Hex.
  { intros Hb. unfold session_inv in Hinv. rewrite Hb in Hinv. exact Hinv. }
  destruct e as [r|r|r|t|b]; cbn [after_w].
  - apply timer_inv_next_card_w; assumption.
  - destruct (known_word_cases r (globals w))
      as [[Habs E] | [(x & l' & Hc & Hin & Hr & Hw & _)
                     | (x & l' & _ & _ & _ & Hw & _)]]; [| |congruence].
    + rewrite (known_word_w_absent r w Habs), E. cbn [snd].
      unfold timer_inv, session_inv in *. cbn.
      destruct (restart_button (globals w)).
      * destruct Ht as [Hsch _]. unfold completion_shown; cbn. auto.
      * exfalso. destruct Hinv as [(y & Hy & Hiny) _].
        unfold current_absent in Habs. rewrite Hy in Habs. contradiction.
    + rewrite (known_word_w_present r w x l' Hc Hr Hw).
      apply timer_inv_next_card_w; cbn; [|exact Hs].
      intros Hb. rewrite (Hex Hb) in Hin. destruct Hin.
  - destruct (records_of (globals w) (swe_words_csv (disk (globals w))))
      as [c|] eqn:Hd.
    + rewrite (start_over_w_records r w c Hd).
      apply timer_inv_next_card_w; cbn; [discriminate | exact Hs].
    + destruct (start_over_w_no_records r w Hd) as [x ->]. exact Ht.
  - destruct (pending t w) eqn:Hp; [|exact Ht].
    apply pending_In in Hp. rewrite fire_eq. cbn [snd].
    unfold timer_inv, session_inv in *.
    destruct (restart_button (globals w)) eqn:Hb.
    + destruct Ht as [Hsch _]. rewrite Hsch in Hp. destruct Hp.
    + destruct Ht as [[Hsch Hf] | [Hsch _]]; [|rewrite Hsch in Hp; destruct Hp].
      rewrite Hsch in Hp. destruct Hp as [<- | []].
      destruct Hinv as [(y & Hy & _) _].
      rewrite flip_card_eq, Hy. cbn. rewrite Hb, Hsch, remove_single. right. auto.
  - exact Ht.
Qed.

Lemma reachable_w_timer_inv (d : Disk) (w : Window) :
  reachable_w_saved d w -> timer_inv w.
Proof.
  intros H. induction H as [r w H | e w Hr IH He].
  - unfold main_w, bind_w, lift in H. cbn [globals initial_w] in H.
    destruct (load_words (initial d)) as [[x|[]] m] eqn:Hl; [discriminate|].
    unfold window_after, set_flip_timer in H. cbn -[next_card_w] in H.
    assert (restart_button m = false) as Hb.
    { apply load_words_shape in Hl. rewrite Hl. reflexivity. }
    match type of H with next_card_w r ?w0 = _ =>
      pose proof (timer_inv_next_card_w r w0) as Hn end.
    rewrite H in Hn. apply Hn; cbn; [congruence | auto].
  - destruct (reachable_saved_inv d _ (reachable_w_saved_globals d w Hr))
      as [Hinv Hwr].
    apply timer_inv_after; assumption.
Qed.

(** X11: the window with its timer is the session without it.  A button
    changes the globals, the canvas and the disk exactly as its callback
    does in the session that leaves the timer out; a timer that fires
    while pending acts as [flip_card], one that is not pending does
    nothing; the start assigns the same globals and raises the same
    exception.  So every state of the globals a running window reaches is
    one the session reaches, and what holds of those holds of the
    window. *)
Theorem window_refines_session :
  (forall e w,
     globals (after_w e w) =
     match e with
     | TimerFires t => if pending t w then after Flip (globals w) else globals w
     | _ => after (erase e) (globals w)
     end) /\
  (forall r d,
     fst (main_w r (initial_w d)) = fst (main r (initial d)) /\
     globals (snd (main_w r (initial_w d))) = snd (main r (initial d))) /\
  (forall d w, reachable_w d w -> reachable d (globals w)).
Proof.
  split; [exact after_w_globals|]. split; [exact main_w_eq|].
  exact reachable_w_globals.
Qed.





(** ** What the counters count *)

Lemma exhausted_run (es : list event) (g : Globals) :
  no_restart es = true -> exhausted g = true ->
  exhausted (run es g) = true.
Proof.
  revert g. induction es as [|e es IH]; intros g Hes Hex; [exact Hex|].
  apply no_restart_cons in Hes. destruct Hes as [He Hes]. rewrite run_cons.
  apply IH; [exact Hes|].
  apply exhausted_stays; auto.
  intros r ->. discriminate.
Qed.

Lemma after_counts (e : event) (g : Globals) :
  write_refused g = false ->
  is_restart e = false -> restart_button (after e g) = false ->
  total_words_guessed (after e g) =
    total_words_guessed g + (if is_press e then 1 else 0) /\
  total_correct_guesses (after e g) =
    total_correct_guesses g + (if is_right e then 1 else 0) /\
  length (to_learn (after e g)) + (if is_right e then 1 else 0) =
    length (to_learn g).
Proof.
  intros Hw He. unfold after.
  destruct e as [r|r| |r|b]; cbn [command]; try discriminate.
  - destruct (next_card_cases r g) as [[_ ->] | (w & _ & _ & _ & ->)]; cbn;
      [discriminate | intros _; lia].
  - destruct (known_word_cases r g)
      as [[_ ->] | [(w & l' & _ & _ & Hr & _ & ->)
                   | (w & l' & _ & _ & _ & Hw' & _)]];
      [cbn; discriminate | | congruence].
    apply remove_first_Some in Hr. destruct Hr as (l1 & l2 & Hl & _ & ->).
    destruct (next_card_cases r (saved (l1 ++ l2) g))
      as [[_ ->] | (w' & _ & _ & _ & ->)]; cbn; [discriminate|].
    intros _. rewrite Hl, !length_app. cbn. lia.
  - rewrite flip_card_eq. destruct (current_word g); cbn; intros _; lia.
  - cbn. intros _. lia.
Qed.

Lemma run_counts (es : list event) (g : Globals) :
  write_refused g = false ->
  no_restart es = true -> undisturbed es = true ->
  restart_button (run es g) = false ->
  total_words_guessed (run es g) =
    total_words_guessed g + count_presses es /\
  total_correct_guesses (run es g) = total_correct_guesses g + count_rights es /\
  length (to_learn (run es g)) + count_rights es = length (to_learn g).
Proof.
  revert g. induction es as [|e es IH]; intros g Hw Hes Hun Hb.
  - cbn. unfold count_rights, count_presses; cbn. lia.
  - apply no_restart_cons in Hes. destruct Hes as [He Hes].
    apply undisturbed_cons in Hun. destruct Hun as [Hre Hun].
    rewrite run_cons in *.
    assert (restart_button (after e g) = false) as Hb'.
    { destruct (restart_button (after e g)) eqn:E; [|reflexivity].
      pose proof (exhausted_run es (after e g) Hes E) as H.
      unfold exhausted in H. congruence. }
    destruct (IH (after e g) (write_refused_after e g Hre Hw) Hes Hun Hb)
      as (H1 & H2 & H3).
    destruct (after_counts e g Hw He Hb') as (A1 & A2 & A3).
    unfold count_rights, count_presses in *. cbn [filter].
    destruct e; cbn [is_press is_right length] in *; lia.
Qed.


